(** * A shallow embedding of the webiny/di container

    The development follows [src/src/types.ts] (which holds the [Container]
    class and its record types), [src/src/createDependency.ts] (the
    [Abstraction] class and [createDependency]), [src/src/Metadata.ts] and the
    small [create*]/[is*] helpers.

    JavaScript objects are shared and mutable, so containers live in a store
    ([heap]) and are referred to by identifier; resolution is a state and
    exception monad over that store.  The engine is recursive without a
    termination argument of its own (a provider that asks for itself through
    a [multiple] edge recurses for ever), hence every recursive function
    takes a [fuel] argument and [OutOfFuel] is an outcome distinct from a
    thrown error. *)

From stdpp Require Import gmap strings list fin_maps.

Set Warnings "-register-all".

(** ** Identities *)

(** A JavaScript [Symbol(description)]: a fresh identity plus a description. *)
Record symbol := Symbol { sym_id : positive; description : string }.

#[global] Instance symbol_eq_dec : EqDecision symbol.
Proof. solve_decision. Defined.

#[global] Instance symbol_countable : Countable symbol.
Proof.
  refine (inj_countable' (λ s, (sym_id s, description s))
                         (λ p, Symbol p.1 p.2) _).
  by intros [].
Defined.

(** [Symbol.prototype.toString]. *)
Definition symbol_toString (s : symbol) : string :=
  "Symbol(" +:+ description s +:+ ")".

(** The [Abstraction] class: nothing but a token. *)
Record Abstraction := { token : symbol }.

#[global] Instance Abstraction_eq_dec : EqDecision Abstraction.
Proof. solve_decision. Defined.

(** [Abstraction.toString]: [this.token.description || this.token.toString()];
    the empty string is falsy. *)
Definition toString (a : Abstraction) : string :=
  if decide (description (token a) = EmptyString) then symbol_toString (token a)
  else description (token a).

(** A class (constructor function): its identity and its [name]. *)
Record Constructor := { ctor_id : positive; name : string }.

#[global] Instance Constructor_eq_dec : EqDecision Constructor.
Proof. solve_decision. Defined.

#[global] Instance Constructor_countable : Countable Constructor.
Proof.
  refine (inj_countable' (λ c, (ctor_id c, name c))
                         (λ p, {| ctor_id := p.1; name := p.2 |}) _).
  by intros [].
Defined.

(** ** Values

    Objects carry the identity they were allocated with, the class they were
    built from and the constructor arguments; [===] on objects is equality of
    identities.  Constructors are taken to be ordinary: [new C(...args)]
    allocates a fresh object, does not throw and does not call back into the
    container. *)
Inductive value :=
| VUndefined
| VNull
| VBool (b : bool)
| VString (s : string)
| VObject (id : nat) (cls : Constructor) (args : list value)
| VArray (elems : list value).

(** [v !== undefined]. *)
Definition is_defined (v : value) : bool :=
  match v with VUndefined => false | _ => true end.

(** JavaScript truthiness, as used by [if (existing)]. *)
Definition truthy (v : value) : bool :=
  match v with
  | VUndefined | VNull => false
  | VBool b => b
  | VString s => negb (bool_decide (s = EmptyString))
  | VObject _ _ _ | VArray _ => true
  end.

(** ** Dependencies and registration records *)

Record DependencyOptions := { multiple : bool; optional : bool }.

(** The object literal [{}]: both flags absent, hence falsy. *)
Definition noOptions : DependencyOptions :=
  {| multiple := false; optional := false |}.

(** What [resolveInternal] is asked for: an [Abstraction], or a bare class
    (a dependency-only class, [typeof abstraction === "function"]). *)
Inductive target :=
| TAbstraction (a : Abstraction)
| TConstructor (c : Constructor).

(** [Dependency = Abstraction | [Abstraction, DependencyOptions]].  The pair
    form always carries its options object here. *)
Inductive Dependency :=
| DepBare (t : target)
| DepPair (t : target) (o : DependencyOptions).

(** [Array.isArray(dep) ? dep : [dep, {}]]. *)
Definition splitDependency (dep : Dependency) : target * DependencyOptions :=
  match dep with
  | DepBare t => (t, noOptions)
  | DepPair t o => (t, o)
  end.

Inductive LifetimeScope := Transient | Singleton.

#[global] Instance LifetimeScope_eq_dec : EqDecision LifetimeScope.
Proof. solve_decision. Defined.

Record Registration := {
  implementation : Constructor;
  dependencies : list Dependency;
  scope : LifetimeScope
}.

Record DecoratorRegistration := {
  decoratorClass : Constructor;
  decoratorDependencies : list Dependency
}.

Record InstanceRegistration := { instance : value }.

(** A factory is an opaque zero-argument closure.  It is given the next free
    object identity, so that it can return a fresh object, a constant or
    [undefined]; it does not call back into the container. *)
Definition Factory := nat → value.

(** ** Containers and the world *)

Definition cid := positive.

Record Container := {
  registrations : gmap symbol (list Registration);
  decorators : gmap symbol (list DecoratorRegistration);
  instances : gmap string value;
  factories : gmap symbol (list Factory);
  instanceRegistrations : gmap symbol (list InstanceRegistration);
  composites : gmap symbol Registration;
  parent : option cid
}.

(** [new Container()]. *)
Definition newContainer : Container :=
  {| registrations := ∅; decorators := ∅; instances := ∅; factories := ∅;
     instanceRegistrations := ∅; composites := ∅; parent := None |}.

#[global] Instance Container_inhabited : Inhabited Container :=
  populate newContainer.

(** The [reflect-metadata] side table of one class, with the keys of
    [Metadata.ts]. *)
Record ClassMetadata := {
  md_abstraction : option Abstraction;
  md_dependencies : option (list Dependency);
  md_isDecorator : bool;
  md_isComposite : bool
}.

Definition noMetadata : ClassMetadata :=
  {| md_abstraction := None; md_dependencies := None;
     md_isDecorator := false; md_isComposite := false |}.

Record World := {
  heap : gmap cid Container;
  metadata : gmap Constructor ClassMetadata;
  next_object : nat;
  next_container : cid;
  next_symbol : positive
}.

Definition emptyWorld : World :=
  {| heap := ∅; metadata := ∅; next_object := 0; next_container := 1%positive;
     next_symbol := 1%positive |}.

(** Dereferencing a container; an identifier that was never allocated reads
    as a fresh empty container. *)
Definition container (this : cid) (w : World) : Container := heap w !!! this.

Definition set_container (this : cid) (c : Container) (w : World) : World :=
  {| heap := <[this := c]> (heap w); metadata := metadata w;
     next_object := next_object w; next_container := next_container w;
     next_symbol := next_symbol w |}.

Definition set_metadata (k : Constructor) (m : ClassMetadata) (w : World) : World :=
  {| heap := heap w; metadata := <[k := m]> (metadata w);
     next_object := next_object w; next_container := next_container w;
     next_symbol := next_symbol w |}.

Definition class_metadata (k : Constructor) (w : World) : ClassMetadata :=
  default noMetadata (metadata w !! k).

(** ** The resolution monad *)

Inductive outcome (A : Type) :=
| Ok (a : A)
| Throw (message : string)
| OutOfFuel.
Arguments Ok {A} a.
Arguments Throw {A} message.
Arguments OutOfFuel {A}.

Definition M (A : Type) : Type := World → outcome A * World.

Definition ret {A} (a : A) : M A := λ w, (Ok a, w).
Definition throw {A} (message : string) : M A := λ w, (Throw message, w).
Definition out_of_fuel {A} : M A := λ w, (OutOfFuel, w).
Definition gets {A} (f : World → A) : M A := λ w, (Ok (f w), w).
Definition modify (f : World → World) : M unit := λ w, (Ok tt, f w).

Definition bind {A B} (m : M A) (k : A → M B) : M B :=
  λ w, match m w with
       | (Ok a, w') => k a w'
       | (Throw e, w') => (Throw e, w')
       | (OutOfFuel, w') => (OutOfFuel, w')
       end.

Notation "'let*' x ':=' m 'in' k" := (bind m (λ x, k))
  (at level 10, x pattern, m at level 100, k at level 200).

(** [list.map(f)] with an effectful callback, left to right. *)
Fixpoint mapM {A B} (f : A → M B) (l : list A) : M (list B) :=
  match l with
  | [] => ret []
  | x :: xs => let* y := f x in let* ys := mapM f xs in ret (y :: ys)
  end.

(** [for (const x of l) body], threading the variables the body assigns. *)
Fixpoint forM {A S} (l : list A) (body : S → A → M S) (s : S) : M S :=
  match l with
  | [] => ret s
  | x :: xs => let* s' := body s x in forM xs body s'
  end.

(** The world after one object allocation. *)
Definition allocated (w : World) : World :=
  {| heap := heap w; metadata := metadata w;
     next_object := S (next_object w);
     next_container := next_container w;
     next_symbol := next_symbol w |}.

(** [new cls(...args)]. *)
Definition construct (cls : Constructor) (args : list value) : M value :=
  λ w, (Ok (VObject (next_object w) cls args), allocated w).

(** [factory()]. *)
Definition call_factory (f : Factory) : M value :=
  λ w, (Ok (f (next_object w)), allocated w).

(** ** The resolution engine ([Container], private methods)

    [resolutionStack] is a JavaScript [Map] handed over by reference: the
    methods that [set] and [delete] on it return the map as they leave it,
    and [new Map(resolutionStack)] is a use of its current value. *)

Definition has (resolutionStack : gmap symbol bool) (k : symbol) : bool :=
  bool_decide (is_Some (resolutionStack !! k)).

(** The key of the singleton cache:
    [`${abstraction.token.toString()}::${registration.implementation.name}`]. *)
Definition instanceKey (abstraction : Abstraction) (registration : Registration) : string :=
  symbol_toString (token abstraction) +:+ "::" +:+ name (implementation registration).

(** [this.instances.set(key, v)]. *)
Definition cache_set (this : cid) (key : string) (v : value) : M unit :=
  modify (λ w,
    let c := container this w in
    set_container this
      {| registrations := registrations c; decorators := decorators c;
         instances := <[key := v]> (instances c);
         factories := factories c;
         instanceRegistrations := instanceRegistrations c;
         composites := composites c; parent := parent c |} w).

(** [deps.map(dep => { const [a, o] = ...; return resolve(a, new Map(stack), o) })]. *)
Definition resolveDeps
    (resolve : target → gmap symbol bool → DependencyOptions → M value)
    (resolutionStack : gmap symbol bool) (deps : list Dependency) : M (list value) :=
  mapM (λ dep, let '(abstractionDep, depOptions) := splitDependency dep in
               resolve abstractionDep resolutionStack depOptions) deps.

(** The body of the decorator loop of [applyDecorators]. *)
Definition decorateStep
    (resolve : target → gmap symbol bool → DependencyOptions → M value)
    (resolutionStack : gmap symbol bool)
    (result : value) (decorator : DecoratorRegistration) : M value :=
  let* decoratorDeps :=
    resolveDeps resolve resolutionStack (decoratorDependencies decorator) in
  construct (decoratorClass decorator) (decoratorDeps ++ [result]).

Fixpoint resolveInternal (fuel : nat) (this : cid) (abstraction : target)
    (resolutionStack : gmap symbol bool) (options : DependencyOptions)
    {struct fuel} : M value :=
  match fuel with
  | 0 => out_of_fuel
  | S fuel =>
    match abstraction with
    | TConstructor ctor => resolveDependencyOnly fuel this ctor resolutionStack
    | TAbstraction abstraction =>
      if has resolutionStack (token abstraction) && negb (multiple options)
      then throw ("Circular dependency detected for " +:+ toString abstraction)
      else
        let* (result, resolutionStack) :=
          tryResolveFromCurrentContainer fuel this abstraction resolutionStack options in
        if is_defined result then ret result
        else
          let* parent := gets (λ w, parent (container this w)) in
          match parent with
          | Some parent =>
              resolveInternal fuel parent (TAbstraction abstraction) resolutionStack options
          | None =>
              if optional options then ret VUndefined
              else throw ("No registration found for " +:+ toString abstraction)
          end
    end
  end

with tryResolveFromCurrentContainer (fuel : nat) (this : cid)
    (abstraction : Abstraction) (resolutionStack : gmap symbol bool)
    (options : DependencyOptions) {struct fuel} : M (value * gmap symbol bool) :=
  match fuel with
  | 0 => out_of_fuel
  | S fuel =>
    let* registrations :=
      gets (λ w, default [] (registrations (container this w) !! token abstraction)) in
    let* instanceRegs :=
      gets (λ w, default [] (instanceRegistrations (container this w) !! token abstraction)) in
    if multiple options then
      let* (results, resolutionStack) :=
        resolveMultiple fuel this abstraction resolutionStack in
      ret (VArray results, resolutionStack)
    else
      let* composite := gets (λ w, composites (container this w) !! token abstraction) in
      match composite with
      | Some composite =>
          let resolutionStack := <[token abstraction := true]> resolutionStack in
          let* resolvedDeps :=
            resolveDeps (resolveInternal fuel this) resolutionStack
                        (dependencies composite) in
          let* instance := construct (implementation composite) resolvedDeps in
          let resolutionStack := delete (token abstraction) resolutionStack in
          ret (instance, resolutionStack)
      | None =>
          if bool_decide (0 < length instanceRegs) then
            let instance :=
              from_option instance VUndefined
                          (instanceRegs !! (length instanceRegs - 1)) in
            let* decorated :=
              applyDecorators fuel this abstraction instance resolutionStack in
            ret (decorated, resolutionStack)
          else if bool_decide (0 < length registrations) then
            match registrations !! (length registrations - 1) with
            | Some registration =>
                resolveRegistration fuel this abstraction registration resolutionStack
            | None => ret (VUndefined, resolutionStack) (* index in range: not reached *)
            end
          else
            let* factories :=
              gets (λ w, factories (container this w) !! token abstraction) in
            match factories with
            | Some factories =>
                if bool_decide (0 < length factories) then
                  match factories !! (length factories - 1) with
                  | Some factory =>
                      let* instance := call_factory factory in
                      let* decorated :=
                        applyDecorators fuel this abstraction instance resolutionStack in
                      ret (decorated, resolutionStack)
                  | None => ret (VUndefined, resolutionStack) (* not reached *)
                  end
                else ret (VUndefined, resolutionStack)
            | None => ret (VUndefined, resolutionStack)
            end
      end
  end

with resolveRegistration (fuel : nat) (this : cid) (abstraction : Abstraction)
    (registration : Registration) (resolutionStack : gmap symbol bool)
    {struct fuel} : M (value * gmap symbol bool) :=
  match fuel with
  | 0 => out_of_fuel
  | S fuel =>
    let instanceKey := instanceKey abstraction registration in
    let* cached :=
      gets (λ w, if decide (scope registration = Singleton)
                 then match instances (container this w) !! instanceKey with
                      | Some existing => if truthy existing then Some existing else None
                      | None => None
                      end
                 else None) in
    match cached with
    | Some existing => ret (existing, resolutionStack)
    | None =>
      let resolutionStack := <[token abstraction := true]> resolutionStack in
      let* resolvedDeps :=
        resolveDeps (resolveInternal fuel this) resolutionStack
                    (dependencies registration) in
      let* instance := construct (implementation registration) resolvedDeps in
      let* decoratedInstance :=
        applyDecorators fuel this abstraction instance resolutionStack in
      let* _ :=
        if decide (scope registration = Singleton)
        then cache_set this instanceKey decoratedInstance
        else ret tt in
      let resolutionStack := delete (token abstraction) resolutionStack in
      ret (decoratedInstance, resolutionStack)
    end
  end

with resolveMultiple (fuel : nat) (this : cid) (abstraction : Abstraction)
    (resolutionStack : gmap symbol bool)
    {struct fuel} : M (list value * gmap symbol bool) :=
  match fuel with
  | 0 => out_of_fuel
  | S fuel =>
    let results := [] in
    let* parent := gets (λ w, parent (container this w)) in
    let* (results, resolutionStack) :=
      match parent with
      | Some parent =>
          let* (fromParent, resolutionStack) :=
            resolveMultiple fuel parent abstraction resolutionStack in
          ret (results ++ fromParent, resolutionStack)
      | None => ret (results, resolutionStack)
      end in
    let* registrations :=
      gets (λ w, default [] (registrations (container this w) !! token abstraction)) in
    let* instanceRegs :=
      gets (λ w, default [] (instanceRegistrations (container this w) !! token abstraction)) in
    let* factories :=
      gets (λ w, default [] (factories (container this w) !! token abstraction)) in
    let* (results, resolutionStack) :=
      forM instanceRegs (λ '(results, resolutionStack) instanceReg,
        let* decorated :=
          applyDecorators fuel this abstraction (instance instanceReg) resolutionStack in
        ret (results ++ [decorated], resolutionStack))
        (results, resolutionStack) in
    let* (results, resolutionStack) :=
      forM registrations (λ '(results, resolutionStack) registration,
        let* (instance, resolutionStack) :=
          resolveRegistration fuel this abstraction registration resolutionStack in
        ret (results ++ [instance], resolutionStack))
        (results, resolutionStack) in
    let* (results, resolutionStack) :=
      forM factories (λ '(results, resolutionStack) factory,
        let* instance := call_factory factory in
        let* decorated :=
          applyDecorators fuel this abstraction instance resolutionStack in
        ret (results ++ [decorated], resolutionStack))
        (results, resolutionStack) in
    ret (results, resolutionStack)
  end

with applyDecorators (fuel : nat) (this : cid) (abstraction : Abstraction)
    (instance : value) (resolutionStack : gmap symbol bool)
    {struct fuel} : M value :=
  match fuel with
  | 0 => out_of_fuel
  | S fuel =>
    let* decorators :=
      gets (λ w, default [] (decorators (container this w) !! token abstraction)) in
    forM decorators (decorateStep (resolveInternal fuel this) resolutionStack) instance
  end

with resolveDependencyOnly (fuel : nat) (this : cid) (constructor : Constructor)
    (resolutionStack : gmap symbol bool) {struct fuel} : M value :=
  match fuel with
  | 0 => out_of_fuel
  | S fuel =>
    let* dependencies := gets (λ w, md_dependencies (class_metadata constructor w)) in
    match dependencies with
    | None =>
        throw (name constructor +:+
               " does not have dependency metadata. Use createDependency to define dependencies.")
    | Some dependencies =>
        let* resolvedDeps :=
          resolveDeps (resolveInternal fuel this) resolutionStack dependencies in
        construct constructor resolvedDeps
    end
  end.

(** ** The public interface of [Container] *)

(** A word between double quotes, for the error messages. *)
Definition quoted (s : string) : string :=
  String (Ascii.ascii_of_nat 34) (s +:+ String (Ascii.ascii_of_nat 34) EmptyString).

(** [resolve(abstraction)]. *)
Definition resolve (fuel : nat) (this : cid) (abstraction : Abstraction) : M value :=
  resolveInternal fuel this (TAbstraction abstraction) ∅ noOptions.

(** [resolveAll(abstraction)]. *)
Definition resolveAll (fuel : nat) (this : cid) (abstraction : Abstraction) : M (list value) :=
  let* (results, _) := resolveMultiple fuel this abstraction ∅ in
  ret results.

(** [resolveWithDependencies({implementation, dependencies})]. *)
Definition resolveWithDependencies (fuel : nat) (this : cid)
    (implementation : Constructor) (dependencies : list Dependency) : M value :=
  let* resolvedDeps := resolveDeps (resolveInternal fuel this) ∅ dependencies in
  construct implementation resolvedDeps.

(** [createChildContainer()]; [new Container()] is [createContainer None]. *)
Definition createContainer (parent : option cid) : M cid :=
  λ w, let child := next_container w in
       (Ok child,
        {| heap := <[child := {| registrations := ∅; decorators := ∅;
                                 instances := ∅; factories := ∅;
                                 instanceRegistrations := ∅; composites := ∅;
                                 parent := parent |}]> (heap w);
           metadata := metadata w; next_object := next_object w;
           next_container := Pos.succ child;
           next_symbol := next_symbol w |}).

Definition createChildContainer (this : cid) : M cid := createContainer (Some this).

(** Replacing one table of a container. *)
Definition set_registrations (this : cid) (k : symbol) (l : list Registration) : M unit :=
  modify (λ w,
    let c := container this w in
    set_container this
      {| registrations := <[k := l]> (registrations c); decorators := decorators c;
         instances := instances c; factories := factories c;
         instanceRegistrations := instanceRegistrations c;
         composites := composites c; parent := parent c |} w).

Definition set_decorators (this : cid) (k : symbol) (l : list DecoratorRegistration) : M unit :=
  modify (λ w,
    let c := container this w in
    set_container this
      {| registrations := registrations c; decorators := <[k := l]> (decorators c);
         instances := instances c; factories := factories c;
         instanceRegistrations := instanceRegistrations c;
         composites := composites c; parent := parent c |} w).

Definition set_factories (this : cid) (k : symbol) (l : list Factory) : M unit :=
  modify (λ w,
    let c := container this w in
    set_container this
      {| registrations := registrations c; decorators := decorators c;
         instances := instances c; factories := <[k := l]> (factories c);
         instanceRegistrations := instanceRegistrations c;
         composites := composites c; parent := parent c |} w).

Definition set_instanceRegistrations (this : cid) (k : symbol)
    (l : list InstanceRegistration) : M unit :=
  modify (λ w,
    let c := container this w in
    set_container this
      {| registrations := registrations c; decorators := decorators c;
         instances := instances c; factories := factories c;
         instanceRegistrations := <[k := l]> (instanceRegistrations c);
         composites := composites c; parent := parent c |} w).

Definition set_composite (this : cid) (k : symbol) (r : Registration) : M unit :=
  modify (λ w,
    let c := container this w in
    set_container this
      {| registrations := registrations c; decorators := decorators c;
         instances := instances c; factories := factories c;
         instanceRegistrations := instanceRegistrations c;
         composites := <[k := r]> (composites c); parent := parent c |} w).

(** What [register] hands back: the registration record it has just stored,
    reached through the container, the token and the position in the list
    (lists only grow at the end, so the position is stable). *)
Record RegistrationBuilder := {
  rb_container : cid;
  rb_token : symbol;
  rb_index : nat
}.

(** [register(implementation)]. *)
Definition register (this : cid) (implementation : Constructor) : M RegistrationBuilder :=
  let* md := gets (class_metadata implementation) in
  if md_isComposite md then
    throw (name implementation +:+ " is a composite! Use the " +:+ quoted "registerComposite" +:+ " method.")
  else if md_isDecorator md then
    throw (name implementation +:+ " is a decorator! Use the " +:+ quoted "registerDecorator" +:+ " method.")
  else
    match md_abstraction md with
    | None => throw ("No abstraction metadata found for " +:+ name implementation)
    | Some abstraction =>
        let registration :=
          {| implementation := implementation;
             dependencies := default [] (md_dependencies md);
             scope := Transient |} in
        let* existing :=
          gets (λ w, default [] (registrations (container this w) !! token abstraction)) in
        let* _ := set_registrations this (token abstraction) (existing ++ [registration]) in
        ret {| rb_container := this; rb_token := token abstraction;
               rb_index := length existing |}
    end.

(** [RegistrationBuilder.inSingletonScope()]: flips the scope of the stored
    record in place. *)
Definition inSingletonScope (b : RegistrationBuilder) : M unit :=
  let* existing :=
    gets (λ w, default [] (registrations (container (rb_container b) w) !! rb_token b)) in
  set_registrations (rb_container b) (rb_token b)
    (alter (λ r, {| implementation := implementation r;
                    dependencies := dependencies r;
                    scope := Singleton |}) (rb_index b) existing).

(** [registerInstance(abstraction, instance)]. *)
Definition registerInstance (this : cid) (abstraction : Abstraction) (instance : value) : M unit :=
  let registration := {| instance := instance |} in
  let* existing :=
    gets (λ w, default [] (instanceRegistrations (container this w) !! token abstraction)) in
  set_instanceRegistrations this (token abstraction) (existing ++ [registration]).

(** [registerFactory(abstraction, factory)]. *)
Definition registerFactory (this : cid) (abstraction : Abstraction) (factory : Factory) : M unit :=
  let* existing :=
    gets (λ w, default [] (factories (container this w) !! token abstraction)) in
  set_factories this (token abstraction) (existing ++ [factory]).

(** [registerDecorator(decorator)]. *)
Definition registerDecorator (this : cid) (decorator : Constructor) : M unit :=
  let* md := gets (class_metadata decorator) in
  if negb (md_isDecorator md) then
    throw (name decorator +:+ " is not a decorator! Use the " +:+ quoted "createDecorator" +:+ " factory.")
  else
    match md_abstraction md with
    | None => throw ("No abstraction metadata found for " +:+ name decorator)
    | Some abstraction =>
        let registration :=
          {| decoratorClass := decorator;
             decoratorDependencies := default [] (md_dependencies md) |} in
        let* existing :=
          gets (λ w, default [] (decorators (container this w) !! token abstraction)) in
        set_decorators this (token abstraction) (existing ++ [registration])
    end.

(** [registerComposite(implementation)]. *)
Definition registerComposite (this : cid) (implementation : Constructor) : M unit :=
  let* md := gets (class_metadata implementation) in
  if negb (md_isComposite md) then
    throw (name implementation +:+ " is not a composite! Use the " +:+ quoted "createComposite" +:+ " factory.")
  else
    match md_abstraction md with
    | None => throw ("No abstraction metadata found for " +:+ name implementation)
    | Some abstraction =>
        let registration :=
          {| implementation := implementation;
             dependencies := default [] (md_dependencies md);
             scope := Transient |} in
        set_composite this (token abstraction) registration
    end.

(** ** Declaring contracts and classes ([Abstraction], [Metadata.ts] and the
    [create*] helpers) *)

(** [new Abstraction(name)]: [this.token = Symbol(name)], a token that no
    earlier call has returned. *)
Definition newAbstraction (name : string) : M Abstraction :=
  λ w, (Ok {| token := Symbol (next_symbol w) name |},
        {| heap := heap w; metadata := metadata w;
           next_object := next_object w;
           next_container := next_container w;
           next_symbol := Pos.succ (next_symbol w) |}).

(** [createImplementation({abstraction, implementation, dependencies})], also
    [abstraction.createImplementation]. *)
Definition createImplementation (abstraction : Abstraction)
    (implementation : Constructor) (dependencies : list Dependency) : M Constructor :=
  let* md := gets (class_metadata implementation) in
  let* _ := modify (set_metadata implementation
    {| md_abstraction := Some abstraction; md_dependencies := Some dependencies;
       md_isDecorator := md_isDecorator md; md_isComposite := md_isComposite md |}) in
  ret implementation.

(** [createDecorator({abstraction, decorator, dependencies})]. *)
Definition createDecorator (abstraction : Abstraction)
    (decorator : Constructor) (dependencies : list Dependency) : M Constructor :=
  let* md := gets (class_metadata decorator) in
  let* _ := modify (set_metadata decorator
    {| md_abstraction := Some abstraction; md_dependencies := Some dependencies;
       md_isDecorator := true; md_isComposite := md_isComposite md |}) in
  ret decorator.

(** [createComposite({abstraction, implementation, dependencies})]. *)
Definition createComposite (abstraction : Abstraction)
    (implementation : Constructor) (dependencies : list Dependency) : M Constructor :=
  let* md := gets (class_metadata implementation) in
  let* _ := modify (set_metadata implementation
    {| md_abstraction := Some abstraction; md_dependencies := Some dependencies;
       md_isDecorator := md_isDecorator md; md_isComposite := true |}) in
  ret implementation.

(** [createDependency({implementation, dependencies})]: dependency metadata
    only, no abstraction. *)
Definition createDependency (implementation : Constructor)
    (dependencies : list Dependency) : M Constructor :=
  let* md := gets (class_metadata implementation) in
  let* _ := modify (set_metadata implementation
    {| md_abstraction := md_abstraction md; md_dependencies := Some dependencies;
       md_isDecorator := md_isDecorator md; md_isComposite := md_isComposite md |}) in
  ret implementation.

Definition isDecorator (implementation : Constructor) : M bool :=
  gets (λ w, md_isDecorator (class_metadata implementation w)).

Definition isComposite (implementation : Constructor) : M bool :=
  gets (λ w, md_isComposite (class_metadata implementation w)).

(** Running a script of calls from a world, keeping the world and dropping
    the result; used to build the concrete scenarios below. *)
Definition exec {A} (m : M A) (w : World) : World := (m w).2.

(** * Notions used by the statements

    The definitions below follow the wording of the specification, so that
    the engine above can be compared with them. *)

(** [preserves R m]: running [m] takes a world to an [R]-related world,
    whatever the outcome. *)
Definition preserves {A} (R : relation World) (m : M A) : Prop :=
  ∀ w, R w (m w).2.

(** Everything in a container but its singleton cache. *)
Definition tables (c : Container) :=
  (registrations c, decorators c, factories c, instanceRegistrations c,
   composites c, parent c).

(** Two worlds with the same metadata and the same tables everywhere: they
    differ in singleton caches and allocation counters at most. *)
Definition same_tables (w w' : World) : Prop :=
  metadata w = metadata w' ∧ ∀ c, tables (container c w) = tables (container c w').

(** Step 3 b-f of the resolution procedure, in the words of the
    specification: a composite wins; else the most recently registered
    instance, decorated; else the most recently registered provider; else the
    most recently registered factory, invoked and decorated; else no local
    match. *)
Definition localSingle (fuel : nat) (this : cid) (a : Abstraction)
    (stk : gmap symbol bool) : M (value * gmap symbol bool) :=
  let* c := gets (container this) in
  match composites c !! token a with
  | Some composite =>
      let* resolvedDeps :=
        resolveDeps (resolveInternal fuel this) (<[token a := true]> stk)
                    (dependencies composite) in
      let* built := construct (implementation composite) resolvedDeps in
      ret (built, delete (token a) (<[token a := true]> stk))
  | None =>
    match last (default [] (instanceRegistrations c !! token a)) with
    | Some newest =>
        let* decorated := applyDecorators fuel this a (instance newest) stk in
        ret (decorated, stk)
    | None =>
      match last (default [] (registrations c !! token a)) with
      | Some newest => resolveRegistration fuel this a newest stk
      | None =>
        match last (default [] (factories c !! token a)) with
        | Some newest =>
            let* produced := call_factory newest in
            let* decorated := applyDecorators fuel this a produced stk in
            ret (decorated, stk)
        | None => ret (VUndefined, stk)
        end
      end
    end
  end.

(** A container holds nothing at all for a contract. *)
Definition no_registration (a : Abstraction) (c : Container) : Prop :=
  composites c !! token a = None ∧
  default [] (instanceRegistrations c !! token a) = [] ∧
  default [] (registrations c !! token a) = [] ∧
  default [] (factories c !! token a) = [].

(** A container holds nothing that multiple-collection would pick up. *)
Definition nothing_to_collect (a : Abstraction) (c : Container) : Prop :=
  default [] (instanceRegistrations c !! token a) = [] ∧
  default [] (registrations c !! token a) = [] ∧
  default [] (factories c !! token a) = [].

(** [ancestor_chain w this l]: [l] is [this], its parent, ... up to the root. *)
Inductive ancestor_chain (w : World) : cid → list cid → Prop :=
| chain_root this :
    parent (container this w) = None → ancestor_chain w this [this]
| chain_child this p l :
    parent (container this w) = Some p →
    ancestor_chain w p l →
    ancestor_chain w this (this :: l).

(** [unshadowed a w D C k]: [D] sits [k] levels below [C] (it is [C] itself
    for [k = 0]) and no container from [D] up to, but excluding, [C] holds a
    registration for [a]. *)
Inductive unshadowed (a : Abstraction) (w : World) : cid → cid → nat → Prop :=
| unshadowed_here C : unshadowed a w C C 0
| unshadowed_below D p C k :
    no_registration a (container D w) →
    parent (container D w) = Some p →
    unshadowed a w p C k →
    unshadowed a w D C (S k).


(** A loop that appends one result per element, in list order, and threads
    the resolution path. *)
Fixpoint collect {A} (g : gmap symbol bool → A → M (value * gmap symbol bool))
    (l : list A) (stk : gmap symbol bool) : M (list value * gmap symbol bool) :=
  match l with
  | [] => ret ([], stk)
  | x :: xs =>
      let* (v, stk1) := g stk x in
      let* (vs, stk2) := collect g xs stk1 in
      ret (v :: vs, stk2)
  end.





(** [below x y]: [x] ran out of fuel, or [x] is [y]; how the run with less
    fuel relates to the run with more. *)
Definition below {A} (x y : outcome A * World) : Prop :=
  x.1 = OutOfFuel ∨ x = y.


(** * Calls as data, frames and fresh objects

    Notions for the properties of the registration and declaration calls,
    and of what resolution reads and writes. *)

(** [framed R m w]: from [w], [m] ends in an [R]-related world. *)
Definition framed {A} (R : relation World) (m : M A) (w : World) : Prop :=
  R w (m w).2.

(** [touches_only S w w']: from [w] to [w'] no table, parent link or class
    metadata has changed, no container or symbol has been created, objects
    have only been added, and the containers outside [S] are the same. *)
Definition touches_only (S : cid → Prop) (w w' : World) : Prop :=
  same_tables w w' ∧
  next_object w ≤ next_object w' ∧
  next_container w = next_container w' ∧
  next_symbol w = next_symbol w' ∧
  ∀ c, ¬ S c → container c w = container c w'.

(** [agree_on S w w']: the two worlds have the same class metadata, the
    same next object identity and the same containers at the identifiers in
    [S]. *)
Definition agree_on (S : cid → Prop) (w w' : World) : Prop :=
  metadata w = metadata w' ∧
  next_object w = next_object w' ∧
  ∀ c, S c → container c w = container c w'.

(** [alike R m w w']: run from [w] and from [w'], [m] has the same outcome
    and ends in [R]-related worlds. *)
Definition alike {A} (R : relation World) (m : M A) (w w' : World) : Prop :=
  (m w).1 = (m w').1 ∧ R (m w).2 (m w').2.

(** [agree_from w0 S w w']: [w] has the tables of [w0], and [w] and [w']
    agree on [S]. *)
Definition agree_from (w0 : World) (S : cid → Prop) (w w' : World) : Prop :=
  same_tables w0 w ∧ agree_on S w w'.

(** A registration call on a container, as data. *)
Inductive registration_call :=
| RegisterProvider (implementation : Constructor)
| RegisterSingleton (implementation : Constructor)
| RegisterInstance (abstraction : Abstraction) (instance : value)
| RegisterFactory (abstraction : Abstraction) (factory : Factory)
| RegisterDecorator (decorator : Constructor)
| RegisterComposite (implementation : Constructor).

(** [perform this r]: the call on container [this]; [RegisterSingleton] is
    [this.register(implementation).inSingletonScope()]. *)
Definition perform (this : cid) (r : registration_call) : M unit :=
  match r with
  | RegisterProvider implementation =>
      let* _ := register this implementation in ret tt
  | RegisterSingleton implementation =>
      let* builder := register this implementation in inSingletonScope builder
  | RegisterInstance abstraction instance => registerInstance this abstraction instance
  | RegisterFactory abstraction factory => registerFactory this abstraction factory
  | RegisterDecorator decorator => registerDecorator this decorator
  | RegisterComposite implementation => registerComposite this implementation
  end.

(** [only_tables_of this w w']: from [w] to [w'] nothing has changed but
    tables of container [this]: metadata, counters, the other containers,
    and the parent link and singleton cache of [this] are the same. *)
Definition only_tables_of (this : cid) (w w' : World) : Prop :=
  metadata w = metadata w' ∧
  next_object w = next_object w' ∧
  next_container w = next_container w' ∧
  next_symbol w = next_symbol w' ∧
  parent (container this w) = parent (container this w') ∧
  instances (container this w) = instances (container this w') ∧
  ∀ c, c ≠ this → container c w = container c w'.

(** The identity of an object. *)
Definition object_id (v : value) : option nat :=
  match v with
  | VObject id _ _ => Some id
  | _ => None
  end.

(** [created_between w w' v]: [v] is an object allocated on the way from
    [w] to [w']. *)
Definition created_between (w w' : World) (v : value) : Prop :=
  ∃ id, object_id v = Some id ∧ next_object w ≤ id < next_object w'.

(** The object counter has not gone down. *)
Definition grows (w w' : World) : Prop := next_object w ≤ next_object w'.

(** The record that wins single resolution of [a] in container [c] builds an
    object per request: a composite, or (no instance record) a newest
    provider in Transient scope. *)
Definition builds_anew (a : Abstraction) (c : Container) : Prop :=
  is_Some (composites c !! token a) ∨
  (composites c !! token a = None ∧
   default [] (instanceRegistrations c !! token a) = [] ∧
   ∃ reg, last (default [] (registrations c !! token a)) = Some reg ∧
          scope reg = Transient).

(** From [w] to [w'] nothing has changed but singleton caches and the object
    counter, which has not gone down. *)
Definition only_caches_filled (w w' : World) : Prop :=
  same_tables w w' ∧ next_object w ≤ next_object w' ∧
  next_container w = next_container w' ∧ next_symbol w = next_symbol w'.

(** The record that wins single resolution of [a] in container [c] is the
    provider [reg], and [c] has no object cached for it. *)
Definition provider_pending (a : Abstraction) (c : Container) (reg : Registration) : Prop :=
  composites c !! token a = None ∧
  default [] (instanceRegistrations c !! token a) = [] ∧
  last (default [] (registrations c !! token a)) = Some reg ∧
  instances c !! instanceKey a reg = None.

(** The contract a registration call files its record under. *)
Definition contract_of (r : registration_call) (w : World) : option Abstraction :=
  match r with
  | RegisterInstance abstraction _ | RegisterFactory abstraction _ => Some abstraction
  | RegisterProvider k | RegisterSingleton k | RegisterDecorator k | RegisterComposite k =>
      md_abstraction (class_metadata k w)
  end.

(** A call of one of the [create*] helpers, as data. *)
Inductive declaration_call :=
| DeclareImplementation (abstraction : Abstraction) (implementation : Constructor)
    (dependencies : list Dependency)
| DeclareDecorator (abstraction : Abstraction) (decorator : Constructor)
    (dependencies : list Dependency)
| DeclareComposite (abstraction : Abstraction) (implementation : Constructor)
    (dependencies : list Dependency)
| DeclareDependency (implementation : Constructor) (dependencies : list Dependency).

Definition declare (d : declaration_call) : M Constructor :=
  match d with
  | DeclareImplementation abstraction implementation dependencies =>
      createImplementation abstraction implementation dependencies
  | DeclareDecorator abstraction decorator dependencies =>
      createDecorator abstraction decorator dependencies
  | DeclareComposite abstraction implementation dependencies =>
      createComposite abstraction implementation dependencies
  | DeclareDependency implementation dependencies =>
      createDependency implementation dependencies
  end.

(** [dep] asks for one object of a contract. *)
Definition asks_for (dep : Dependency) (a : Abstraction) (o : DependencyOptions) : Prop :=
  splitDependency dep = (TAbstraction a, o) ∧ multiple o = false.

(** What a constructor receives for a dependency that nothing provides:
    the empty list where a list was asked for, [undefined] otherwise. *)
Definition absent (dep : Dependency) : value :=
  if multiple (splitDependency dep).2 then VArray [] else VUndefined.

(** Single resolution of [a] in container [c] runs the result through the
    decorators of [c]: no composite, and the winning record is an instance,
    a provider in Transient scope, or a factory. *)
Definition decorates_anew (a : Abstraction) (c : Container) : Prop :=
  composites c !! token a = None ∧
  (default [] (instanceRegistrations c !! token a) ≠ [] ∨
   (∃ reg, last (default [] (registrations c !! token a)) = Some reg ∧
           scope reg = Transient) ∨
   (default [] (registrations c !! token a) = [] ∧
    default [] (factories c !! token a) ≠ [])).

(** Single resolution of [a] in container [c] is served by an instance or a
    factory: the records that are resolved without putting the contract on
    the resolution stack. *)
Definition served_without_stack (a : Abstraction) (c : Container) : Prop :=
  composites c !! token a = None ∧
  (default [] (instanceRegistrations c !! token a) ≠ [] ∨
   (default [] (registrations c !! token a) = [] ∧
    default [] (factories c !! token a) ≠ [])).

(** * Concrete scenarios *)

Module Scenario.
Definition Logger : Abstraction := {| token := Symbol 1 "Logger" |}.
Definition Formatter : Abstraction := {| token := Symbol 2 "Formatter" |}.
Definition ServiceA : Abstraction := {| token := Symbol 3 "Service" |}.
Definition ServiceB : Abstraction := {| token := Symbol 4 "Service" |}.

Definition ConsoleLogger : Constructor := {| ctor_id := 1; name := "ConsoleLogger" |}.
Definition FileLogger : Constructor := {| ctor_id := 2; name := "FileLogger" |}.
Definition CompositeLogger : Constructor := {| ctor_id := 3; name := "CompositeLogger" |}.
Definition LoggerDecorator : Constructor := {| ctor_id := 4; name := "LoggerDecorator" |}.
Definition MetricsDecorator : Constructor := {| ctor_id := 5; name := "MetricsDecorator" |}.
Definition UpperCaseFormatter : Constructor := {| ctor_id := 6; name := "UpperCaseFormatter" |}.
Definition ServiceImplA : Constructor := {| ctor_id := 7; name := "ServiceImpl" |}.
Definition ServiceImplB : Constructor := {| ctor_id := 8; name := "ServiceImpl" |}.

Definition root : cid := 1%positive.
Definition child : cid := 2%positive.
Definition grandchild : cid := 3%positive.

Definition allLoggers : Dependency :=
  DepPair (TAbstraction Logger) {| multiple := true; optional := false |}.

(** The contracts, as [new Abstraction(...)] hands them out. *)
Definition contracts : M (list Abstraction) :=
  let* logger := newAbstraction "Logger" in
  let* formatter := newAbstraction "Formatter" in
  let* serviceA := newAbstraction "Service" in
  let* serviceB := newAbstraction "Service" in
  ret [logger; formatter; serviceA; serviceB].

(** The class declarations shared by the scenarios. *)
Definition declarations : M unit :=
  let* _ := contracts in
  let* _ := createImplementation Logger ConsoleLogger [] in
  let* _ := createImplementation Logger FileLogger [] in
  let* _ := createComposite Logger CompositeLogger [allLoggers] in
  let* _ := createDecorator Logger LoggerDecorator [] in
  let* _ := createDecorator Logger MetricsDecorator [DepBare (TAbstraction Formatter)] in
  let* _ := createImplementation Formatter UpperCaseFormatter [] in
  let* _ := createImplementation ServiceA ServiceImplA [] in
  let* _ := createImplementation ServiceB ServiceImplB [] in
  ret tt.

(** A root container with a child and a grandchild, all empty. *)
Definition family : World :=
  exec (let* _ := declarations in
        let* r := createContainer None in
        let* c := createChildContainer r in
        let* _ := createChildContainer c in
        ret tt) emptyWorld.

(** ConsoleLogger as a singleton on the root, nothing below. *)
Definition singleton_on_root : World :=
  exec (let* b := register root ConsoleLogger in inSingletonScope b) family.

Definition singleton_on_root_resolved : World :=
  exec (resolve 4 root Logger) singleton_on_root.

(** The same, and the child registers the class as a singleton of its own. *)
Definition singleton_shadowed : World :=
  exec (let* b := register child ConsoleLogger in inSingletonScope b)
       singleton_on_root.

(** A singleton provider on the root, then a transient one. *)
Definition singleton_then_transient : World :=
  exec (register root FileLogger) singleton_on_root.

(** Two providers, a decorator and a composite on the root. *)
Definition composite_world : World :=
  exec (let* _ := register root ConsoleLogger in
        let* _ := register root FileLogger in
        let* _ := registerDecorator root LoggerDecorator in
        registerComposite root CompositeLogger) family.

Definition composite_args : list value :=
  [VArray [VObject 1 LoggerDecorator [VObject 0 ConsoleLogger []];
           VObject 3 LoggerDecorator [VObject 2 FileLogger []]]].

Definition composite_deps_resolved : World :=
  exec (resolveDeps (resolveInternal 8 root) {[token Logger := true]} [allLoggers])
       composite_world.




(** A formatter and a logger provider, and two decorators for the logger,
    the second with a dependency. *)
Definition decorated_world : World :=
  exec (let* _ := register root UpperCaseFormatter in
        let* _ := register root ConsoleLogger in
        let* _ := registerDecorator root LoggerDecorator in
        registerDecorator root MetricsDecorator) family.

(** An instance record holding [undefined] on the child, a provider on the
    root. *)
Definition undefined_instance : World :=
  exec (let* _ := register root ConsoleLogger in
        registerInstance child Logger VUndefined) family.

(** Two contracts with the same label, each with a singleton provider of
    its own; both classes are called ServiceImpl. *)
Definition same_label : World :=
  exec (let* a := register root ServiceImplA in
        let* _ := inSingletonScope a in
        let* b := register root ServiceImplB in
        inSingletonScope b) family.

Definition same_label_resolved : World :=
  exec (resolve 4 root ServiceA) same_label.

Definition singleton_record (c : Constructor) : Registration :=
  {| implementation := c; dependencies := []; scope := Singleton |}.
End Scenario.

(** Further classes and worlds, for the properties of registration calls
    and of cycles. *)
Module Variations.
Import Scenario.

Definition Unknown : Constructor := {| ctor_id := 9; name := "Unknown" |}.
Definition Clock : Constructor := {| ctor_id := 10; name := "Clock" |}.
Definition EchoDecorator : Constructor := {| ctor_id := 11; name := "EchoDecorator" |}.

Definition optionalFormatter : Dependency :=
  DepPair (TAbstraction Formatter) {| multiple := false; optional := true |}.

(** ConsoleLogger as a transient provider on the root. *)
Definition transient_on_root : World := exec (register root ConsoleLogger) family.

(** FileLogger declared with a dependency on its own contract. *)
Definition self_dependent : World :=
  exec (let* _ := createImplementation Logger FileLogger [DepBare (TAbstraction Logger)] in
        register root FileLogger) family.

(** A class without a contract that lists itself as its dependency. *)
Definition plain_cycle : World :=
  exec (createDependency Clock [DepBare (TConstructor Clock)]) family.

(** A ready-made logger on the root, and a decorator that asks for a logger
    besides the one it wraps. *)
Definition decorator_cycle : World :=
  exec (let* _ := createDecorator Logger EchoDecorator [DepBare (TAbstraction Logger)] in
        let* _ := registerInstance root Logger (VString "ready-made") in
        registerDecorator root EchoDecorator) family.

(** The child's logger needs a formatter; the root's formatter takes a
    logger if there is one; the root has no logger. *)
Definition optional_back_edge : World :=
  exec (let* _ := createImplementation Logger FileLogger
                    [DepBare (TAbstraction Formatter)] in
        let* _ := createImplementation Formatter UpperCaseFormatter
                    [DepPair (TAbstraction Logger)
                             {| multiple := false; optional := true |}] in
        let* _ := register child FileLogger in
        register root UpperCaseFormatter) family.

Definition optionalFormatters : Dependency :=
  DepPair (TAbstraction Formatter) {| multiple := true; optional := true |}.
End Variations.

(** * Reasoning about the monad *)

Section monad_facts.
Context {A B : Type}.
Implicit Types (m : M A) (k : A → M B).

Lemma bind_Ok m k w a w' : m w = (Ok a, w') → bind m k w = k a w'.
Proof. unfold bind. by intros ->. Qed.

Lemma bind_Throw m k w e w' : m w = (Throw e, w') → bind m k w = (Throw e, w').
Proof. unfold bind. by intros ->. Qed.

Lemma bind_OutOfFuel m k w w' : m w = (OutOfFuel, w') → bind m k w = (OutOfFuel, w').
Proof. unfold bind. by intros ->. Qed.

Lemma bind_Ok_inv m k w b w2 :
  bind m k w = (Ok b, w2) → ∃ a w1, m w = (Ok a, w1) ∧ k a w1 = (Ok b, w2).
Proof.
  unfold bind. destruct (m w) as [[a| |] w1]; [eauto | done | done].
Qed.

Lemma bind_ret_l (a : A) k w : bind (ret a) k w = k a w.
Proof. done. Qed.

Lemma bind_gets {S} (f : World → S) (k' : S → M B) w : bind (gets f) k' w = k' (f w) w.
Proof. done. Qed.
End monad_facts.

Lemma bind_ext {A B} (m : M A) (k k' : A → M B) w :
  (∀ a w', k a w' = k' a w') → bind m k w = bind m k' w.
Proof. intros Hk. unfold bind. destruct (m w) as [[a| |] w1]; auto. Qed.

Lemma bind_assoc {A B C} (m : M A) (k : A → M B) (h : B → M C) w :
  bind (bind m k) h w = bind m (λ a, bind (k a) h) w.
Proof. unfold bind. by destruct (m w) as [[a| |] w1]. Qed.

Lemma mapM_length {A B} (f : A → M B) l w ys w' :
  mapM f l w = (Ok ys, w') → length ys = length l.
Proof.
  revert w ys w'. induction l as [|x l IH]; intros w ys w'; simpl.
  - by intros [= <- _].
  - intros H. apply bind_Ok_inv in H as (y & w1 & _ & H).
    apply bind_Ok_inv in H as (zs & w2 & Hzs & [= <- _]).
    simpl. f_equal. eauto.
Qed.

(** ** Relations that every step of a computation respects *)

Section preserves.
Context (R : relation World) `{!PreOrder R}.

Lemma preserves_ret {A} (a : A) : preserves R (ret a).
Proof. intros w. simpl. reflexivity. Qed.

Lemma preserves_throw {A} e : preserves R (@throw A e).
Proof. intros w. simpl. reflexivity. Qed.

Lemma preserves_out_of_fuel {A} : preserves R (@out_of_fuel A).
Proof. intros w. simpl. reflexivity. Qed.

Lemma preserves_gets {A} (f : World → A) : preserves R (gets f).
Proof. intros w. simpl. reflexivity. Qed.

Lemma preserves_bind {A B} (m : M A) (k : A → M B) :
  preserves R m → (∀ a, preserves R (k a)) → preserves R (bind m k).
Proof.
  intros Hm Hk w. unfold bind. specialize (Hm w).
  destruct (m w) as [[a| |] w1]; simpl in *; [|done..].
  etrans; [exact Hm | apply Hk].
Qed.

Lemma preserves_mapM {A B} (f : A → M B) l :
  (∀ x, preserves R (f x)) → preserves R (mapM f l).
Proof.
  intros Hf. induction l as [|x l IH]; simpl.
  - apply preserves_ret.
  - apply preserves_bind; [done|]. intros y.
    apply preserves_bind; [done|]. intros ys. apply preserves_ret.
Qed.

Lemma preserves_forM {A S} (body : S → A → M S) l s :
  (∀ s x, preserves R (body s x)) → preserves R (forM l body s).
Proof.
  intros Hb. revert s. induction l as [|x l IH]; intros s; simpl.
  - apply preserves_ret.
  - apply preserves_bind; [done|]. intros s'. apply IH.
Qed.
End preserves.

(** * What resolution leaves alone

    Resolution allocates objects and fills singleton caches; whatever relation
    on worlds is respected by these two effects is respected by the whole
    engine. *)

Section engine_preserves.
Context (R : relation World) `{!PreOrder R}.
Hypothesis R_allocated : ∀ w, R w (allocated w).
Hypothesis R_cache_set : ∀ this key v w, R w (cache_set this key v w).2.

Lemma preserves_construct cls args : preserves R (construct cls args).
Proof. intros w. apply R_allocated. Qed.

Lemma preserves_call_factory f : preserves R (call_factory f).
Proof. intros w. apply R_allocated. Qed.

Lemma preserves_cache_set this key v : preserves R (cache_set this key v).
Proof. intros w. apply R_cache_set. Qed.

Lemma preserves_resolveDeps resolve stk deps :
  (∀ t s o, preserves R (resolve t s o)) →
  preserves R (resolveDeps resolve stk deps).
Proof.
  intros Hr. apply (preserves_mapM R). intros dep.
  by destruct (splitDependency dep).
Qed.

Lemma preserves_decorateStep resolve stk result d :
  (∀ t s o, preserves R (resolve t s o)) →
  preserves R (decorateStep resolve stk result d).
Proof.
  intros Hr. apply (preserves_bind R).
  - by apply preserves_resolveDeps.
  - intros deps. apply preserves_construct.
Qed.

Local Ltac pres :=
  repeat first
    [ progress intros
    | apply (preserves_ret R) | apply (preserves_throw R) | apply (preserves_out_of_fuel R)
    | apply (preserves_gets R) | apply preserves_construct
    | apply preserves_call_factory | apply preserves_cache_set
    | apply preserves_resolveDeps | apply preserves_decorateStep
    | apply (preserves_forM R) | apply (preserves_mapM R)
    | apply (preserves_bind R)
    | solve [auto]
    | match goal with
      | |- preserves _ (match ?x with _ => _ end) => destruct x
      | |- preserves _ (let '(_, _) := ?x in _) => destruct x
      | |- preserves _ ((let '(_, _) := ?x in _) _) => destruct x
      end ].

Lemma engine_preserves fuel :
  (∀ this t stk o, preserves R (resolveInternal fuel this t stk o)) ∧
  (∀ this a stk o, preserves R (tryResolveFromCurrentContainer fuel this a stk o)) ∧
  (∀ this a r stk, preserves R (resolveRegistration fuel this a r stk)) ∧
  (∀ this a stk, preserves R (resolveMultiple fuel this a stk)) ∧
  (∀ this a i stk, preserves R (applyDecorators fuel this a i stk)) ∧
  (∀ this c stk, preserves R (resolveDependencyOnly fuel this c stk)).
Proof.
  induction fuel as [|fuel (IHri & IHtry & IHreg & IHmul & IHdec & IHdep)].
  { repeat split; intros; apply (preserves_out_of_fuel R). }
  repeat split; intros; simpl; pres.
Qed.
End engine_preserves.

(** ** The registration tables are read-only during resolution *)

#[global] Instance same_tables_preorder : PreOrder same_tables.
Proof.
  split.
  - by intros w.
  - intros w1 w2 w3 [Hm1 H1] [Hm2 H2]. split; [congruence|].
    intros c. by rewrite H1.
Qed.

Lemma container_set_container this c w :
  container this (set_container this c w) = c.
Proof. unfold container, set_container. simpl. apply lookup_total_insert_eq. Qed.

Lemma container_set_container_ne this other c w :
  this ≠ other → container other (set_container this c w) = container other w.
Proof.
  intros Hne. unfold container, set_container. simpl.
  by apply lookup_total_insert_ne.
Qed.

Lemma same_tables_allocated w : same_tables w (allocated w).
Proof. by split. Qed.

Lemma same_tables_cache_set this key v w :
  same_tables w (cache_set this key v w).2.
Proof.
  split; [done|]. intros c. simpl.
  destruct (decide (this = c)) as [->|Hne].
  - by rewrite container_set_container.
  - by rewrite container_set_container_ne.
Qed.

Lemma resolveInternal_same_tables fuel this t stk o w :
  same_tables w (resolveInternal fuel this t stk o w).2.
Proof.
  apply (engine_preserves same_tables same_tables_allocated same_tables_cache_set).
Qed.


Lemma resolveMultiple_same_tables fuel this a stk w :
  same_tables w (resolveMultiple fuel this a stk w).2.
Proof.
  apply (engine_preserves same_tables same_tables_allocated same_tables_cache_set).
Qed.

Lemma applyDecorators_same_tables fuel this a i stk w :
  same_tables w (applyDecorators fuel this a i stk w).2.
Proof.
  apply (engine_preserves same_tables same_tables_allocated same_tables_cache_set).
Qed.

Section same_tables_reads.
Context (w w' : World) (H : same_tables w w') (c : cid).

Lemma same_registrations : registrations (container c w) = registrations (container c w').
Proof using H. destruct H as [_ Ht]. specialize (Ht c). unfold tables in Ht. congruence. Qed.

Lemma same_decorators : decorators (container c w) = decorators (container c w').
Proof using H. destruct H as [_ Ht]. specialize (Ht c). unfold tables in Ht. congruence. Qed.

Lemma same_factories : factories (container c w) = factories (container c w').
Proof using H. destruct H as [_ Ht]. specialize (Ht c). unfold tables in Ht. congruence. Qed.

Lemma same_instanceRegistrations :
  instanceRegistrations (container c w) = instanceRegistrations (container c w').
Proof using H. destruct H as [_ Ht]. specialize (Ht c). unfold tables in Ht. congruence. Qed.

Lemma same_composites : composites (container c w) = composites (container c w').
Proof using H. destruct H as [_ Ht]. specialize (Ht c). unfold tables in Ht. congruence. Qed.

Lemma same_parent : parent (container c w) = parent (container c w').
Proof using H. destruct H as [_ Ht]. specialize (Ht c). unfold tables in Ht. congruence. Qed.
End same_tables_reads.

(** ** More fuel never changes an answer *)

Lemma below_refl {A} (x : outcome A * World) : below x x.
Proof. by right. Qed.

Lemma below_bind {A B} (m m' : M A) (k k' : A → M B) w :
  below (m w) (m' w) →
  (∀ a w1, below (k a w1) (k' a w1)) →
  below (bind m k w) (bind m' k' w).
Proof.
  intros [Hm|Hm] Hk; unfold bind.
  - left. destruct (m w) as [[a| |] w1]; simpl in *; done.
  - rewrite <- Hm. destruct (m w) as [[a| |] w1]; [apply Hk | by right..].
Qed.

Lemma below_mapM {A B} (f g : A → M B) l w :
  (∀ x w, below (f x w) (g x w)) → below (mapM f l w) (mapM g l w).
Proof.
  intros Hfg. revert w. induction l as [|x l IH]; intros w; simpl.
  - apply below_refl.
  - apply below_bind; [done|]. intros y w1.
    apply below_bind; [done|]. intros ys w2. apply below_refl.
Qed.

Lemma below_forM {A S} (body body' : S → A → M S) l s w :
  (∀ s x w, below (body s x w) (body' s x w)) →
  below (forM l body s w) (forM l body' s w).
Proof.
  intros Hb. revert s w. induction l as [|x l IH]; intros s w; simpl.
  - apply below_refl.
  - apply below_bind; [done|]. intros s' w1. apply IH.
Qed.

Lemma below_resolveDeps resolve resolve' stk deps w :
  (∀ t s o w, below (resolve t s o w) (resolve' t s o w)) →
  below (resolveDeps resolve stk deps w) (resolveDeps resolve' stk deps w).
Proof.
  intros Hr. apply below_mapM. intros dep w'. by destruct (splitDependency dep).
Qed.

Lemma below_decorateStep resolve resolve' stk result d w :
  (∀ t s o w, below (resolve t s o w) (resolve' t s o w)) →
  below (decorateStep resolve stk result d w) (decorateStep resolve' stk result d w).
Proof.
  intros Hr. apply below_bind; [by apply below_resolveDeps|].
  intros deps w1. apply below_refl.
Qed.

Local Ltac mono :=
  repeat first
    [ progress intros
    | apply below_refl
    | solve [auto]
    | apply below_resolveDeps | apply below_decorateStep
    | apply below_forM | apply below_mapM
    | apply below_bind
    | match goal with
      | |- below ((match ?x with _ => _ end) _) _ => destruct x
      | |- below ((if ?x then _ else _) _) _ => destruct x
      | |- below ((let '(_, _) := ?x in _) _) _ => destruct x
      | |- below ((let '(_, _) := ?x in _) _ _) _ => destruct x
      end ].

Lemma fuel_monotone n :
  ∀ m, n ≤ m →
  (∀ this t stk o w,
     below (resolveInternal n this t stk o w) (resolveInternal m this t stk o w)) ∧
  (∀ this a stk o w,
     below (tryResolveFromCurrentContainer n this a stk o w)
           (tryResolveFromCurrentContainer m this a stk o w)) ∧
  (∀ this a r stk w,
     below (resolveRegistration n this a r stk w) (resolveRegistration m this a r stk w)) ∧
  (∀ this a stk w,
     below (resolveMultiple n this a stk w) (resolveMultiple m this a stk w)) ∧
  (∀ this a i stk w,
     below (applyDecorators n this a i stk w) (applyDecorators m this a i stk w)) ∧
  (∀ this c stk w,
     below (resolveDependencyOnly n this c stk w) (resolveDependencyOnly m this c stk w)).
Proof.
  induction n as [|n IH]; intros m Hle.
  { repeat split; intros; by left. }
  destruct m as [|m]; [lia|].
  destruct (IH m ltac:(lia)) as (IHri & IHtry & IHreg & IHmul & IHdec & IHdep).
  repeat split; intros; simpl; mono.
Qed.


Lemma resolve_more_fuel n m this a w r w' :
  n ≤ m → resolve n this a w = (r, w') → r ≠ OutOfFuel →
  resolve m this a w = (r, w').
Proof.
  intros Hle Hrun Hr. unfold resolve in *.
  destruct (fuel_monotone n m Hle) as (Hri & _).
  destruct (Hri this (TAbstraction a) ∅ noOptions w) as [Hout|Heq].
  - by rewrite Hrun in Hout.
  - by rewrite <- Heq.
Qed.

Lemma resolveMultiple_more_fuel n m this a stk w r w' :
  n ≤ m → resolveMultiple n this a stk w = (r, w') → r ≠ OutOfFuel →
  resolveMultiple m this a stk w = (r, w').
Proof.
  intros Hle Hrun Hr.
  destruct (fuel_monotone n m Hle) as (_ & _ & _ & Hmul & _).
  destruct (Hmul this a stk w) as [Hout|Heq].
  - by rewrite Hrun in Hout.
  - by rewrite <- Heq.
Qed.

(** * Single resolution in one container *)

(** The record lists are append-only, so the most recently registered record
    is the last one; the code reaches it as [l[l.length - 1]] behind a
    [l.length > 0] test. *)
Lemma pick_last {A} (l : list A) :
  (l = [] ∧ last l = None) ∨
  (∃ x, last l = Some x ∧ bool_decide (0 < length l) = true ∧
        l !! (length l - 1) = Some x).
Proof.
  destruct (last l) as [x|] eqn:Hlast.
  - right. exists x. split; [done|].
    rewrite last_lookup in Hlast. rewrite Nat.sub_1_r. split; [|done].
    apply bool_decide_eq_true. destruct l; simpl in *; [done | lia].
  - left. by apply last_None in Hlast.
Qed.

Lemma tryResolve_single fuel this a stk o w :
  multiple o = false →
  tryResolveFromCurrentContainer (S fuel) this a stk o w = localSingle fuel this a stk w.
Proof.
  intros Hm. unfold localSingle. simpl. rewrite !bind_gets, Hm, bind_gets.
  destruct (composites (container this w) !! token a) as [comp|]; [done|].
  destruct (pick_last (default [] (instanceRegistrations (container this w) !! token a)))
    as [[-> ->]|(ir & -> & -> & ->)]; [|done].
  simpl.
  destruct (pick_last (default [] (registrations (container this w) !! token a)))
    as [[-> ->]|(r & -> & -> & ->)]; [|done].
  simpl. rewrite bind_gets.
  destruct (factories (container this w) !! token a) as [fs|]; [|done]. simpl.
  destruct (pick_last fs) as [[-> ->]|(f & -> & -> & ->)]; done.
Qed.

(** [resolveInternal] on an abstraction, one call deep. *)
Lemma resolveInternal_abstraction fuel this a stk o w :
  resolveInternal (S fuel) this (TAbstraction a) stk o w =
  if has stk (token a) && negb (multiple o)
  then (Throw ("Circular dependency detected for " +:+ toString a), w)
  else
    match tryResolveFromCurrentContainer fuel this a stk o w with
    | (Ok (result, stk'), w') =>
        if is_defined result then (Ok result, w')
        else
          match parent (container this w') with
          | Some p => resolveInternal fuel p (TAbstraction a) stk' o w'
          | None =>
              if optional o then (Ok VUndefined, w')
              else (Throw ("No registration found for " +:+ toString a), w')
          end
    | (Throw e, w') => (Throw e, w')
    | (OutOfFuel, w') => (OutOfFuel, w')
    end.
Proof.
  simpl. destruct (has stk (token a) && negb (multiple o)); [done|].
  unfold bind at 1.
  destruct (tryResolveFromCurrentContainer fuel this a stk o w)
    as [[[result stk']| |] w']; [|done..].
  destruct (is_defined result); [done|].
  rewrite bind_gets. destruct (parent (container this w')); [done|].
  by destruct (optional o).
Qed.

Lemma ancestor_chain_same_tables w w' this l :
  same_tables w w' → ancestor_chain w this l → ancestor_chain w' this l.
Proof.
  intros Hsame. induction 1 as [this Hp|this p l Hp _ IH].
  - apply chain_root. by rewrite <- (same_parent w w' Hsame).
  - eapply chain_child; [|done]. by rewrite <- (same_parent w w' Hsame).
Qed.

Lemma localSingle_no_registration fuel this a stk w :
  no_registration a (container this w) →
  localSingle fuel this a stk w = (Ok (VUndefined, stk), w).
Proof.
  intros (Hc & Hi & Hr & Hf). unfold localSingle.
  by rewrite bind_gets, Hc, Hi, Hr, Hf.
Qed.

(** Nothing registered locally: single resolution moves on to the parent. *)
Lemma resolveInternal_skip fuel this p a stk o w :
  no_registration a (container this w) →
  parent (container this w) = Some p →
  multiple o = false →
  has stk (token a) = false →
  resolveInternal (S (S fuel)) this (TAbstraction a) stk o w =
  resolveInternal (S fuel) p (TAbstraction a) stk o w.
Proof.
  intros Hno Hp Hm Hs.
  rewrite resolveInternal_abstraction, Hs, andb_false_l.
  rewrite tryResolve_single, localSingle_no_registration by done.
  cbn [is_defined]. by rewrite Hp.
Qed.

Lemma resolveInternal_unregistered a stk o w l :
  multiple o = false →
  has stk (token a) = false →
  ∀ this fuel,
    ancestor_chain w this l →
    Forall (λ c, no_registration a (container c w)) l →
    length l < fuel →
    resolveInternal fuel this (TAbstraction a) stk o w =
    if optional o then (Ok VUndefined, w)
    else (Throw ("No registration found for " +:+ toString a), w).
Proof.
  intros Hm Hs this fuel Hchain. revert fuel.
  induction Hchain as [this Hp|this p l Hp Hchain IH]; intros fuel Hall Hlen.
  - apply Forall_cons in Hall as [Hno _].
    destruct fuel as [|[|fuel]]; simpl in Hlen; [lia..|].
    rewrite resolveInternal_abstraction, Hs, andb_false_l.
    rewrite tryResolve_single, localSingle_no_registration by done.
    cbn [is_defined]. by rewrite Hp.
  - apply Forall_cons in Hall as [Hno Hall].
    destruct fuel as [|[|fuel]]; simpl in Hlen; [lia..|].
    rewrite (resolveInternal_skip _ _ p) by done.
    apply IH; [done | lia].
Qed.

(** * Cycle check *)

(** C7.  When the token of the requested contract is already on the
    resolution path and the request is not [multiple], [resolveInternal]
    throws the circular-dependency error naming the contract and leaves the
    world as it found it: nothing has been constructed or cached.  A
    [multiple] request with the same path is exempt: it is handed to
    multiple-collection and returns its array. *)
Theorem C7_circular_dependency fuel this a stk o w :
  has stk (token a) = true →
  resolveInternal (S (S fuel)) this (TAbstraction a) stk o w =
  if multiple o
  then (let* (results, _) := resolveMultiple fuel this a stk in
        ret (VArray results)) w
  else (Throw ("Circular dependency detected for " +:+ toString a), w).
Proof.
  intros Hs. rewrite resolveInternal_abstraction, Hs.
  destruct (multiple o) eqn:Hm; [|done].
  rewrite andb_false_r. cbn [tryResolveFromCurrentContainer].
  rewrite !bind_gets, Hm. unfold bind.
  by destruct (resolveMultiple fuel this a stk w) as [[[rs stk']| |] w'].
Qed.

(** * Absent registrations *)

(** C8.  A single resolution of a contract for which neither the container
    nor any of its ancestors holds a registration.  If the contract is
    already on the resolution path, the cycle check comes first and the
    request throws "Circular dependency detected for ...", optional or not.
    Otherwise it returns [undefined] when the request is optional and throws
    "No registration found for ..." naming the contract when it is not.
    [resolve], whose path and options are empty, throws the latter. *)
Theorem C8_no_registration_found a stk o w l this fuel :
  multiple o = false →
  ancestor_chain w this l →
  Forall (λ c, no_registration a (container c w)) l →
  length l < fuel →
  resolveInternal fuel this (TAbstraction a) stk o w =
    (if has stk (token a)
     then (Throw ("Circular dependency detected for " +:+ toString a), w)
     else if optional o then (Ok VUndefined, w)
     else (Throw ("No registration found for " +:+ toString a), w)) ∧
  resolve fuel this a w =
    (Throw ("No registration found for " +:+ toString a), w).
Proof.
  intros Hm Hchain Hall Hlen. split.
  - destruct (has stk (token a)) eqn:Hs.
    + destruct fuel as [|fuel]; [lia|].
      by rewrite resolveInternal_abstraction, Hs, Hm.
    + by apply (resolveInternal_unregistered a stk o w l).
  - unfold resolve.
    by rewrite (resolveInternal_unregistered a ∅ noOptions w l).
Qed.

Lemma resolveMultiple_nothing a w l :
  ∀ this fuel stk,
    ancestor_chain w this l →
    Forall (λ c, nothing_to_collect a (container c w)) l →
    length l ≤ fuel →
    resolveMultiple fuel this a stk w = (Ok ([], stk), w).
Proof.
  intros this fuel stk Hchain. revert fuel.
  induction Hchain as [this Hp|this p l Hp Hchain IH]; intros fuel Hall Hlen.
  - apply Forall_cons in Hall as [(Hi & Hr & Hf) _].
    destruct fuel as [|fuel]; simpl in Hlen; [lia|].
    cbn [resolveMultiple]. by rewrite bind_gets, Hp, !bind_ret_l, !bind_gets, Hi, Hr, Hf.
  - apply Forall_cons in Hall as [(Hi & Hr & Hf) Hall].
    destruct fuel as [|fuel]; simpl in Hlen; [lia|].
    cbn [resolveMultiple]. rewrite bind_gets, Hp.
    rewrite (bind_Ok _ _ _ ([], stk) w).
    + by rewrite !bind_gets, Hi, Hr, Hf.
    + rewrite (bind_Ok _ _ _ ([], stk) w); [done|]. apply IH; [done | lia].
Qed.

(** C9.  With no provider, instance or factory record for a contract in the
    container or any ancestor, [resolveAll] returns the empty list, and so
    does a request with [multiple] set, whatever its [optional] flag: nothing
    is thrown and the world is unchanged. *)
Theorem C9_collect_nothing a w l this fuel :
  ancestor_chain w this l →
  Forall (λ c, nothing_to_collect a (container c w)) l →
  length l ≤ fuel →
  resolveAll fuel this a w = (Ok [], w) ∧
  ∀ stk o, multiple o = true →
    resolveInternal (S (S fuel)) this (TAbstraction a) stk o w = (Ok (VArray []), w).
Proof.
  intros Hchain Hall Hlen. split.
  - unfold resolveAll.
    by rewrite (bind_Ok _ _ _ _ _ (resolveMultiple_nothing a w l this fuel ∅ Hchain Hall Hlen)).
  - intros stk o Hm. rewrite resolveInternal_abstraction, Hm, andb_false_r.
    cbn [tryResolveFromCurrentContainer]. rewrite !bind_gets, Hm.
    by rewrite (bind_Ok _ _ _ _ _ (resolveMultiple_nothing a w l this fuel stk Hchain Hall Hlen)).
Qed.

(** * Precedence of local records *)


(** C6.  With a composite record for the contract in the resolving
    container, a single resolution resolves the composite's dependencies on
    a path extended by the contract, constructs the composite from them and
    returns that very object: it is not wrapped, whatever decorators the
    container holds for the contract. *)
Theorem C6_composite_undecorated fuel this a stk o w composite args w1 :
  multiple o = false →
  has stk (token a) = false →
  composites (container this w) !! token a = Some composite →
  resolveDeps (resolveInternal fuel this) (<[token a := true]> stk)
              (dependencies composite) w = (Ok args, w1) →
  resolveInternal (S (S fuel)) this (TAbstraction a) stk o w =
  (Ok (VObject (next_object w1) (implementation composite) args), allocated w1).
Proof.
  intros Hm Hs Hc Hdeps.
  rewrite resolveInternal_abstraction, Hs, andb_false_l, tryResolve_single by done.
  unfold localSingle. rewrite bind_gets, Hc.
  by rewrite (bind_Ok _ _ _ _ _ Hdeps).
Qed.

(** C10.  When the local attempt of a single resolution yields [undefined],
    the container behaves as if it held nothing: it asks the parent, and at
    the root it returns absence for an optional request and throws "No
    registration found for ..." otherwise. *)
Theorem C10_undefined_is_no_match fuel this a stk o w stk' w' :
  multiple o = false →
  has stk (token a) = false →
  tryResolveFromCurrentContainer (S fuel) this a stk o w = (Ok (VUndefined, stk'), w') →
  resolveInternal (S (S fuel)) this (TAbstraction a) stk o w =
  match parent (container this w') with
  | Some p => resolveInternal (S fuel) p (TAbstraction a) stk' o w'
  | None =>
      if optional o then (Ok VUndefined, w')
      else (Throw ("No registration found for " +:+ toString a), w')
  end.
Proof.
  intros Hm Hs Htry.
  by rewrite resolveInternal_abstraction, Hs, andb_false_l, Htry.
Qed.

Lemma applyDecorators_none fuel this a inst stk w :
  default [] (decorators (container this w) !! token a) = [] →
  applyDecorators (S fuel) this a inst stk w = (Ok inst, w).
Proof. intros Hd. cbn [applyDecorators]. by rewrite bind_gets, Hd. Qed.

(** The two situations named by C10 in which the local attempt yields
    [undefined]. *)
Lemma undefined_instance_local fuel this a stk o w newest :
  multiple o = false →
  composites (container this w) !! token a = None →
  last (default [] (instanceRegistrations (container this w) !! token a)) = Some newest →
  instance newest = VUndefined →
  default [] (decorators (container this w) !! token a) = [] →
  tryResolveFromCurrentContainer (S (S fuel)) this a stk o w = (Ok (VUndefined, stk), w).
Proof.
  intros Hm Hc Hi Hu Hd. rewrite tryResolve_single by done.
  unfold localSingle. rewrite bind_gets, Hc, Hi, Hu.
  by rewrite (bind_Ok _ _ _ _ _ (applyDecorators_none fuel this a _ stk w Hd)).
Qed.

Lemma undefined_factory_local fuel this a stk o w (newest : Factory) :
  multiple o = false →
  composites (container this w) !! token a = None →
  default [] (instanceRegistrations (container this w) !! token a) = [] →
  default [] (registrations (container this w) !! token a) = [] →
  last (default [] (factories (container this w) !! token a)) = Some newest →
  newest (next_object w) = VUndefined →
  default [] (decorators (container this w) !! token a) = [] →
  tryResolveFromCurrentContainer (S (S fuel)) this a stk o w =
  (Ok (VUndefined, stk), allocated w).
Proof.
  intros Hm Hc Hi Hr Hf Hu Hd. rewrite tryResolve_single by done.
  unfold localSingle. rewrite bind_gets, Hc, Hi, Hr, Hf, !last_nil.
  rewrite (bind_Ok _ _ _ VUndefined (allocated w))
    by (unfold call_factory; by rewrite Hu).
  by rewrite (bind_Ok _ _ _ _ _ (applyDecorators_none fuel this a _ stk (allocated w) Hd)).
Qed.

(** * Decorators *)

Lemma forM_snoc {A S} (body : S → A → M S) l x s w :
  forM (l ++ [x]) body s w = (let* s' := forM l body s in body s' x) w.
Proof.
  revert s w. induction l as [|y l IH]; intros s w; simpl.
  - rewrite bind_ret_l. unfold bind. by destruct (body s x w) as [[?| |] ?].
  - rewrite bind_assoc. apply bind_ext. intros s' w'. apply IH.
Qed.




(** * Multiple collection *)




Lemma collect_preserves (R : relation World) `{!PreOrder R} {A}
    (g : gmap symbol bool → A → M (value * gmap symbol bool)) l stk :
  (∀ s x, preserves R (g s x)) → preserves R (collect g l stk).
Proof.
  intros Hg. revert stk. induction l as [|x l IH]; intros stk; simpl.
  - by apply preserves_ret.
  - apply (preserves_bind R); [done|]. intros [v stk1].
    apply (preserves_bind R); [done|]. intros [vs stk2]. by apply preserves_ret.
Qed.







(** ** Collection returns when no record has dependencies *)









(** * Singletons *)

Lemma truthy_is_defined v : truthy v = true → is_defined v = true.
Proof. by destruct v. Qed.

Lemma decorateStep_object resolve stk result d w v w' :
  decorateStep resolve stk result d w = (Ok v, w') → truthy v = true.
Proof.
  unfold decorateStep. intros H.
  apply bind_Ok_inv in H as (deps & w1 & _ & H).
  unfold construct in H. by injection H as <- _.
Qed.

Lemma decorator_loop_truthy resolve stk ds base w v w' :
  forM ds (decorateStep resolve stk) base w = (Ok v, w') →
  truthy base = true → truthy v = true.
Proof.
  revert base w. induction ds as [|d ds IH]; intros base w; simpl.
  - by intros [= <- _].
  - intros H Hb. apply bind_Ok_inv in H as (v1 & w1 & Hstep & H).
    apply (IH _ _ H). by apply decorateStep_object in Hstep.
Qed.

Lemma applyDecorators_truthy fuel this a base stk w v w' :
  applyDecorators fuel this a base stk w = (Ok v, w') →
  truthy base = true → truthy v = true.
Proof.
  destruct fuel as [|fuel]; [done|]. cbn [applyDecorators].
  rewrite bind_gets. apply decorator_loop_truthy.
Qed.

(** What a singleton registration returns is what its container's cache
    holds afterwards, and it is an object. *)
Lemma resolveRegistration_singleton_cached fuel this a reg stk w v stk' w1 :
  scope reg = Singleton →
  resolveRegistration fuel this a reg stk w = (Ok (v, stk'), w1) →
  instances (container this w1) !! instanceKey a reg = Some v ∧ truthy v = true.
Proof.
  intros Hscope. destruct fuel as [|fuel]; [done|].
  cbn [resolveRegistration]. rewrite bind_gets.
  rewrite decide_True by done.
  destruct (instances (container this w) !! instanceKey a reg) as [existing|] eqn:Hcache.
  - destruct (truthy existing) eqn:Htruthy.
    + by intros [= <- _ <-].
    + intros H.
      apply bind_Ok_inv in H as (deps & w2 & _ & H).
      apply bind_Ok_inv in H as (built & w3 & Hbuilt & H).
      apply bind_Ok_inv in H as (decorated & w4 & Hdec & H).
      rewrite decide_True in H by done.
      apply bind_Ok_inv in H as ([] & w5 & Hset & [= <- _ <-]).
      injection Hset as <-. rewrite container_set_container. simpl.
      rewrite lookup_insert_eq. split; [done|].
      apply (applyDecorators_truthy _ _ _ _ _ _ _ _ Hdec).
      unfold construct in Hbuilt. by injection Hbuilt as <- _.
  - intros H.
    apply bind_Ok_inv in H as (deps & w2 & _ & H).
    apply bind_Ok_inv in H as (built & w3 & Hbuilt & H).
    apply bind_Ok_inv in H as (decorated & w4 & Hdec & H).
    rewrite decide_True in H by done.
    apply bind_Ok_inv in H as ([] & w5 & Hset & [= <- _ <-]).
    injection Hset as <-. rewrite container_set_container. simpl.
    rewrite lookup_insert_eq. split; [done|].
    apply (applyDecorators_truthy _ _ _ _ _ _ _ _ Hdec).
    unfold construct in Hbuilt. by injection Hbuilt as <- _.
Qed.

(** A filled cache answers at once, leaving the world alone. *)
Lemma resolveRegistration_cache_hit fuel this a reg stk w v :
  scope reg = Singleton →
  instances (container this w) !! instanceKey a reg = Some v →
  truthy v = true →
  resolveRegistration (S fuel) this a reg stk w = (Ok (v, stk), w).
Proof.
  intros Hscope Hcache Htruthy. cbn [resolveRegistration].
  by rewrite bind_gets, decide_True, Hcache, Htruthy.
Qed.

Lemma no_registration_same_tables a w w' c :
  same_tables w w' → no_registration a (container c w) → no_registration a (container c w').
Proof.
  intros Hs. unfold no_registration.
  by rewrite <- (same_composites w w' Hs), <- (same_instanceRegistrations w w' Hs),
             <- (same_registrations w w' Hs), <- (same_factories w w' Hs).
Qed.

Lemma unshadowed_same_tables a w w' D C k :
  same_tables w w' → unshadowed a w D C k → unshadowed a w' D C k.
Proof.
  intros Hs. induction 1 as [C|D p C k Hno Hp _ IH].
  - apply unshadowed_here.
  - eapply unshadowed_below; [|by rewrite <- (same_parent w w' Hs)|done].
    by apply (no_registration_same_tables a w w').
Qed.

Lemma resolveInternal_unshadowed a w D C k o stk :
  multiple o = false →
  has stk (token a) = false →
  unshadowed a w D C k →
  ∀ fuel, resolveInternal (S fuel + k) D (TAbstraction a) stk o w =
          resolveInternal (S fuel) C (TAbstraction a) stk o w.
Proof.
  intros Hm Hs. induction 1 as [C|D p C k Hno Hp _ IH]; intros fuel.
  - by rewrite Nat.add_0_r.
  - replace (S fuel + S k) with (S (S (fuel + k))) by lia.
    rewrite (resolveInternal_skip _ _ p) by done. apply IH.
Qed.

Lemma localSingle_provider fuel this a stk w reg :
  composites (container this w) !! token a = None →
  default [] (instanceRegistrations (container this w) !! token a) = [] →
  last (default [] (registrations (container this w) !! token a)) = Some reg →
  localSingle fuel this a stk w = resolveRegistration fuel this a reg stk w.
Proof.
  intros Hc Hi Hr. unfold localSingle. by rewrite bind_gets, Hc, Hi, Hr.
Qed.

(** C1.  Let the record that wins single resolution of [a] in container [C]
    be a provider in Singleton scope (no composite, no instance record, the
    newest provider record is Singleton), and let [resolve] on [C] return
    [v].  Then every later [resolve] on [C] returns the identical [v] and
    changes nothing; and so does [resolve] on any container [D] below [C]
    with no registration for [a] between [D] and [C], whether it is asked
    after [C] or in its place. *)
Theorem C1_singleton_identity a w C reg fuel v w1 D k :
  composites (container C w) !! token a = None →
  default [] (instanceRegistrations (container C w) !! token a) = [] →
  last (default [] (registrations (container C w) !! token a)) = Some reg →
  scope reg = Singleton →
  unshadowed a w D C k →
  resolve fuel C a w = (Ok v, w1) →
  (∀ fuel', 3 ≤ fuel' → resolve fuel' C a w1 = (Ok v, w1)) ∧
  (∀ fuel', 3 + k ≤ fuel' → resolve fuel' D a w1 = (Ok v, w1)) ∧
  (∀ fuel', fuel + k ≤ fuel' → resolve fuel' D a w = (Ok v, w1)).
Proof.
  intros Hc Hi Hr Hscope Hpath Hrun. unfold resolve in *.
  assert (Hsame : same_tables w w1).
  { pose proof (resolveInternal_same_tables fuel C (TAbstraction a) ∅ noOptions w) as H.
    by rewrite Hrun in H. }
  assert (Hcached : instances (container C w1) !! instanceKey a reg = Some v ∧
                    truthy v = true).
  { destruct fuel as [|[|fuel]]; [done| |].
    { rewrite resolveInternal_abstraction in Hrun. by simpl in Hrun. }
    rewrite resolveInternal_abstraction in Hrun.
    change (has ∅ (token a) && negb (multiple noOptions)) with false in Hrun.
    rewrite tryResolve_single, (localSingle_provider _ _ _ _ _ reg) in Hrun by done.
    destruct (resolveRegistration fuel C a reg ∅ w) as [[[result stk']| |] w'] eqn:Hreg;
      cbv beta iota in Hrun; [|done..].
    apply resolveRegistration_singleton_cached in Hreg as [Hcache Htruthy]; [|done].
    rewrite (truthy_is_defined _ Htruthy) in Hrun. by injection Hrun as <- <-. }
  destruct Hcached as [Hcache Htruthy].
  assert (Hagain : ∀ fuel', 3 ≤ fuel' →
            resolveInternal fuel' C (TAbstraction a) ∅ noOptions w1 = (Ok v, w1)).
  { intros [|[|[|fuel']]] Hfuel; [lia..|]. clear Hfuel.
    rewrite resolveInternal_abstraction.
    change (has ∅ (token a) && negb (multiple noOptions)) with false.
    rewrite tryResolve_single by done.
    rewrite (localSingle_provider _ _ _ _ _ reg).
    - rewrite (resolveRegistration_cache_hit _ _ _ _ _ _ v) by done.
      by rewrite (truthy_is_defined _ Htruthy).
    - by rewrite <- (same_composites w w1 Hsame).
    - by rewrite <- (same_instanceRegistrations w w1 Hsame).
    - by rewrite <- (same_registrations w w1 Hsame). }
  split; [done|]. split.
  - intros fuel' Hfuel.
    apply (resolve_more_fuel (3 + k) fuel'); [done| |done].
    unfold resolve. rewrite (resolveInternal_unshadowed a w1 D C k) by
      (done || by apply (unshadowed_same_tables a w w1)).
    apply Hagain. lia.
  - intros fuel' Hfuel.
    apply (resolve_more_fuel (fuel + k) fuel'); [done| |done].
    unfold resolve. destruct fuel as [|fuel]; [done|].
    by rewrite (resolveInternal_unshadowed a w D C k).
Qed.

(** * Resolution writes to the singleton caches of the ancestor chain only *)

Section framed.
Context (R : relation World) `{!PreOrder R} (w0 : World) (inS : cid → Prop).
Hypothesis R_allocated : ∀ w, R w (allocated w).
Hypothesis R_cache_set : ∀ this key v w, inS this → R w (cache_set this key v w).2.
Hypothesis inS_parent :
  ∀ this p w, R w0 w → inS this → parent (container this w) = Some p → inS p.

Lemma framed_ret {A} (a : A) w : framed R (ret a) w.
Proof. unfold framed. simpl. reflexivity. Qed.

Lemma framed_throw {A} e w : framed R (@throw A e) w.
Proof. unfold framed. simpl. reflexivity. Qed.

Lemma framed_out_of_fuel {A} w : framed R (@out_of_fuel A) w.
Proof. unfold framed. simpl. reflexivity. Qed.

Lemma framed_gets {A} (f : World → A) w : framed R (gets f) w.
Proof. unfold framed. simpl. reflexivity. Qed.

Lemma framed_bind {A B} (m : M A) (k : A → M B) w :
  R w0 w →
  framed R m w →
  (∀ a w1, m w = (Ok a, w1) → R w0 w1 → framed R (k a) w1) →
  framed R (bind m k) w.
Proof.
  unfold framed, bind. intros Hw Hm Hk.
  destruct (m w) as [[a| |] w1] eqn:Hrun; simpl in *; [|done..].
  etrans; [exact Hm|]. apply Hk; [done|]. by etrans.
Qed.

Lemma framed_mapM {A B} (f : A → M B) l w :
  R w0 w →
  (∀ x w1, R w0 w1 → framed R (f x) w1) →
  framed R (mapM f l) w.
Proof.
  intros Hw Hf. revert w Hw. induction l as [|x l IH]; intros w Hw; simpl.
  - apply framed_ret.
  - apply framed_bind; [done | by apply Hf |]. intros y w1 _ Hw1.
    apply framed_bind; [done | by apply IH |]. intros ys w2 _ Hw2. apply framed_ret.
Qed.

Lemma framed_forM {A S} (body : S → A → M S) l s w :
  R w0 w →
  (∀ s x w1, R w0 w1 → framed R (body s x) w1) →
  framed R (forM l body s) w.
Proof.
  intros Hw Hb. revert s w Hw. induction l as [|x l IH]; intros s w Hw; simpl.
  - apply framed_ret.
  - apply framed_bind; [done | by apply Hb |]. intros s' w1 _ Hw1. by apply IH.
Qed.

Lemma framed_construct cls args w : framed R (construct cls args) w.
Proof. apply R_allocated. Qed.

Lemma framed_call_factory f w : framed R (call_factory f) w.
Proof. apply R_allocated. Qed.

Lemma framed_resolveDeps resolve stk deps w :
  R w0 w →
  (∀ t s o w1, R w0 w1 → framed R (resolve t s o) w1) →
  framed R (resolveDeps resolve stk deps) w.
Proof.
  intros Hw Hr. apply framed_mapM; [done|]. intros dep w1 Hw1.
  destruct (splitDependency dep). by apply Hr.
Qed.

Lemma framed_decorateStep resolve stk result d w :
  R w0 w →
  (∀ t s o w1, R w0 w1 → framed R (resolve t s o) w1) →
  framed R (decorateStep resolve stk result d) w.
Proof.
  intros Hw Hr. apply framed_bind; [done | by apply framed_resolveDeps |].
  intros deps w1 _ _. apply framed_construct.
Qed.

Local Ltac frame_step :=
  first
    [ progress intros
    | apply framed_ret | apply framed_throw | apply framed_out_of_fuel
    | apply framed_gets | apply framed_construct | apply framed_call_factory
    | apply R_cache_set; assumption
    | apply framed_resolveDeps; [assumption|]
    | apply framed_decorateStep; [assumption|]
    | apply framed_forM; [assumption|]
    | apply framed_mapM; [assumption|]
    | apply framed_bind; [assumption| |]
    | match goal with
      | H : gets _ _ = (Ok _, _) |- _ => unfold gets in H; injection H as <- <-
      | IH : ∀ this, inS this → _ |- framed R _ _ =>
          apply IH; [first [assumption | eapply inS_parent; eassumption] | assumption]
      | |- framed R (match ?x with _ => _ end) _ => destruct x eqn:?
      | |- framed R (let '(_, _) := ?x in _) _ => destruct x
      | |- framed R ((let '(_, _) := ?x in _) _) _ => destruct x
      end ].

Lemma engine_framed fuel :
  (∀ this, inS this → ∀ t stk o w, R w0 w →
     framed R (resolveInternal fuel this t stk o) w) ∧
  (∀ this, inS this → ∀ a stk o w, R w0 w →
     framed R (tryResolveFromCurrentContainer fuel this a stk o) w) ∧
  (∀ this, inS this → ∀ a r stk w, R w0 w →
     framed R (resolveRegistration fuel this a r stk) w) ∧
  (∀ this, inS this → ∀ a stk w, R w0 w →
     framed R (resolveMultiple fuel this a stk) w) ∧
  (∀ this, inS this → ∀ a i stk w, R w0 w →
     framed R (applyDecorators fuel this a i stk) w) ∧
  (∀ this, inS this → ∀ c stk w, R w0 w →
     framed R (resolveDependencyOnly fuel this c stk) w).
Proof.
  induction fuel as [|fuel (IHri & IHtry & IHreg & IHmul & IHdec & IHdep)].
  { repeat split; intros; apply framed_out_of_fuel. }
  repeat split; intros this Hthis; intros; simpl; repeat frame_step.
Qed.

Lemma public_framed fuel this w :
  inS this → R w0 w →
  (∀ a, framed R (resolve fuel this a) w) ∧
  (∀ a, framed R (resolveAll fuel this a) w) ∧
  (∀ impl deps, framed R (resolveWithDependencies fuel this impl deps) w).
Proof.
  intros Hthis Hw.
  destruct (engine_framed fuel) as (Hri & _ & _ & Hmul & _).
  split; [|split].
  - intros a. by apply Hri.
  - intros a. apply framed_bind; [done | by apply Hmul |].
    intros [rs stk] w1 _ _. apply framed_ret.
  - intros impl deps. apply framed_bind; [done | |].
    + apply framed_resolveDeps; [done|]. intros t s o w1 Hw1. by apply Hri.
    + intros args w1 _ _. apply framed_construct.
Qed.
End framed.

#[global] Instance touches_only_preorder S : PreOrder (touches_only S).
Proof.
  split.
  - intros w. split; [reflexivity|]. by repeat split.
  - intros w1 w2 w3 (Ht1 & Ho1 & Hc1 & Hs1 & Hf1) (Ht2 & Ho2 & Hc2 & Hs2 & Hf2).
    split; [by etrans|]. split; [lia|]. split; [congruence|]. split; [congruence|].
    intros c Hc. by rewrite Hf1, Hf2.
Qed.

Lemma touches_only_allocated S w : touches_only S w (allocated w).
Proof. split; [apply same_tables_allocated|]. repeat split. simpl. lia. Qed.

Lemma touches_only_cache_set (S : cid → Prop) this key v w :
  S this → touches_only S w (cache_set this key v w).2.
Proof.
  intros Hthis. split; [apply same_tables_cache_set|].
  repeat split; [done|]. intros c Hc. simpl.
  rewrite container_set_container_ne; [done|]. by intros ->.
Qed.

Lemma ancestor_chain_closed w this l c p :
  ancestor_chain w this l → c ∈ l → parent (container c w) = Some p → p ∈ l.
Proof.
  induction 1 as [this Hp|this q l Hq Hchain IH]; intros Hc Hpc.
  - apply list_elem_of_singleton in Hc as ->. congruence.
  - apply elem_of_cons in Hc as [->|Hc].
    + assert (q = p) as -> by congruence. right.
      destruct Hchain; by left.
    + right. by apply IH.
Qed.

Lemma ancestor_chain_head w this l : ancestor_chain w this l → this ∈ l.
Proof. destruct 1; by left. Qed.

Lemma public_touches_all fuel this w :
  (∀ a, touches_only (λ _, True) w (resolve fuel this a w).2) ∧
  (∀ a, touches_only (λ _, True) w (resolveAll fuel this a w).2) ∧
  (∀ impl deps,
     touches_only (λ _, True) w (resolveWithDependencies fuel this impl deps w).2).
Proof.
  apply (public_framed (touches_only (λ _, True)) w (λ _, True)
           (touches_only_allocated _) (touches_only_cache_set _));
    [done | done | reflexivity].
Qed.

Lemma public_touches_chain fuel this w l :
  ancestor_chain w this l →
  (∀ a, touches_only (.∈ l) w (resolve fuel this a w).2) ∧
  (∀ a, touches_only (.∈ l) w (resolveAll fuel this a w).2) ∧
  (∀ impl deps,
     touches_only (.∈ l) w (resolveWithDependencies fuel this impl deps w).2).
Proof.
  intros Hchain.
  apply (public_framed (touches_only (.∈ l)) w (.∈ l)
           (touches_only_allocated _) (touches_only_cache_set _));
    [|by apply (ancestor_chain_head w this l)|reflexivity].
  intros c p w1 (Hs & _) Hc Hp.
  apply (ancestor_chain_closed w this l c p Hchain Hc).
  by rewrite (same_parent w w1 Hs).
Qed.

Lemma touches_only_caches S w w' : touches_only S w w' → only_caches_filled w w'.
Proof. by intros (? & ? & ? & ? & _). Qed.

(** X1.  Whatever is asked of a container, and whether it succeeds or throws,
    resolution leaves every registration table, parent link and class
    metadata as it was, creates no container and no symbol, and never lowers
    the object counter: it can only add objects and fill singleton caches. *)
Theorem resolution_only_fills_caches fuel this w :
  (∀ a, only_caches_filled w (exec (resolve fuel this a) w)) ∧
  (∀ a, only_caches_filled w (exec (resolveAll fuel this a) w)) ∧
  (∀ impl deps,
     only_caches_filled w (exec (resolveWithDependencies fuel this impl deps) w)).
Proof.
  destruct (public_touches_all fuel this w) as (H1 & H2 & H3).
  split_and!; intros; eapply touches_only_caches; [apply H1 | apply H2 | apply H3].
Qed.

(** X2.  The containers that resolution writes to are the container it is asked
    on and its ancestors; every other container, its singleton cache
    included, is the same afterwards. *)
Theorem resolution_touches_chain_only fuel this w l c :
  ancestor_chain w this l →
  c ∉ l →
  (∀ a, container c (exec (resolve fuel this a) w) = container c w) ∧
  (∀ a, container c (exec (resolveAll fuel this a) w) = container c w) ∧
  (∀ impl deps,
     container c (exec (resolveWithDependencies fuel this impl deps) w) = container c w).
Proof.
  intros Hchain Hc.
  destruct (public_touches_chain fuel this w l Hchain) as (H1 & H2 & H3).
  split_and!; intros; symmetry; [apply H1 | apply H2 | apply H3]; done.
Qed.

(** * Resolution reads the ancestor chain only *)

Section alike.
Context (w0 : World) (inS : cid → Prop).
Hypothesis inS_parent : ∀ c p, inS c → parent (container c w0) = Some p → inS p.

Local Abbreviation R := (agree_from w0 inS).

Lemma agree_container this w w' : R w w' → inS this → container this w = container this w'.
Proof. intros (_ & _ & _ & Hc) Hthis. by apply Hc. Qed.

Lemma agree_metadata w w' : R w w' → metadata w = metadata w'.
Proof. by intros (_ & Hm & _). Qed.

Lemma agree_parent this p w w' :
  R w w' → inS this → parent (container this w) = Some p → inS p.
Proof.
  intros (Hs & _) Hthis Hp. apply (inS_parent this p Hthis).
  by rewrite (same_parent w0 w Hs).
Qed.

Lemma alike_ret {A} (a : A) w w' : R w w' → alike R (ret a) w w'.
Proof. by split. Qed.

Lemma alike_throw {A} e w w' : R w w' → alike R (@throw A e) w w'.
Proof. by split. Qed.

Lemma alike_out_of_fuel {A} w w' : R w w' → alike R (@out_of_fuel A) w w'.
Proof. by split. Qed.

Lemma alike_gets {A} (f : World → A) w w' :
  R w w' → f w = f w' → alike R (gets f) w w'.
Proof. intros HR Hf. split; [simpl; by rewrite Hf | done]. Qed.

Lemma alike_bind {A B} (m : M A) (k : A → M B) w w' :
  alike R m w w' →
  (∀ a w1 w1', m w = (Ok a, w1) → m w' = (Ok a, w1') → R w1 w1' →
     alike R (k a) w1 w1') →
  alike R (bind m k) w w'.
Proof.
  unfold alike, bind. intros [Ho HR] Hk.
  destruct (m w) as [[a| |] w1] eqn:H1, (m w') as [[a'| |] w1'] eqn:H2;
    simpl in *; try done.
  - injection Ho as <-. by apply Hk.
  - by injection Ho as ->.
Qed.

Lemma alike_mapM {A B} (f : A → M B) l w w' :
  R w w' →
  (∀ x w1 w1', R w1 w1' → alike R (f x) w1 w1') →
  alike R (mapM f l) w w'.
Proof.
  intros HR Hf. revert w w' HR. induction l as [|x l IH]; intros w w' HR; simpl.
  - by apply alike_ret.
  - apply alike_bind; [by apply Hf|]. intros y w1 w1' _ _ HR1.
    apply alike_bind; [by apply IH|]. intros ys w2 w2' _ _ HR2. by apply alike_ret.
Qed.

Lemma alike_forM {A S} (body : S → A → M S) l s w w' :
  R w w' →
  (∀ s x w1 w1', R w1 w1' → alike R (body s x) w1 w1') →
  alike R (forM l body s) w w'.
Proof.
  intros HR Hb. revert s w w' HR. induction l as [|x l IH]; intros s w w' HR; simpl.
  - by apply alike_ret.
  - apply alike_bind; [by apply Hb|]. intros s' w1 w1' _ _ HR1. by apply IH.
Qed.

Lemma agree_allocated w w' : R w w' → R (allocated w) (allocated w').
Proof.
  intros (Hs & Hm & Ho & Hc). split; [|split; [|split]]; simpl.
  - etrans; [done | apply same_tables_allocated].
  - done.
  - by rewrite Ho.
  - done.
Qed.

Lemma alike_construct cls args w w' : R w w' → alike R (construct cls args) w w'.
Proof.
  intros HR. split; [|by apply agree_allocated].
  destruct HR as (_ & _ & Ho & _). simpl. by rewrite Ho.
Qed.

Lemma alike_call_factory f w w' : R w w' → alike R (call_factory f) w w'.
Proof.
  intros HR. split; [|by apply agree_allocated].
  destruct HR as (_ & _ & Ho & _). simpl. by rewrite Ho.
Qed.

Lemma alike_cache_set this key v w w' :
  R w w' → inS this → alike R (cache_set this key v) w w'.
Proof.
  intros HR Hthis. split; [done|].
  pose proof (agree_container this w w' HR Hthis) as Hc.
  destruct HR as (Hs & Hm & Ho & Hcs). split; [|split; [|split]]; simpl.
  - etrans; [done | apply same_tables_cache_set].
  - done.
  - done.
  - intros c Hin. destruct (decide (this = c)) as [->|Hne].
    + rewrite !container_set_container. by rewrite Hc.
    + rewrite !container_set_container_ne by done. by apply Hcs.
Qed.

Lemma alike_resolveDeps resolve stk deps w w' :
  R w w' →
  (∀ t s o w1 w1', R w1 w1' → alike R (resolve t s o) w1 w1') →
  alike R (resolveDeps resolve stk deps) w w'.
Proof.
  intros HR Hr. apply alike_mapM; [done|]. intros dep w1 w1' HR1.
  destruct (splitDependency dep). by apply Hr.
Qed.

Lemma alike_decorateStep resolve stk result d w w' :
  R w w' →
  (∀ t s o w1 w1', R w1 w1' → alike R (resolve t s o) w1 w1') →
  alike R (decorateStep resolve stk result d) w w'.
Proof.
  intros HR Hr. apply alike_bind; [by apply alike_resolveDeps|].
  intros deps w1 w1' _ _ HR1. by apply alike_construct.
Qed.

Local Ltac alike_read :=
  apply alike_gets;
  [ assumption
  | cbv beta; unfold class_metadata;
    first [ by erewrite agree_container by eassumption
          | by erewrite agree_metadata by eassumption ] ].

Local Ltac alike_step :=
  first
    [ progress intros
    | apply alike_ret; assumption | apply alike_throw; assumption
    | apply alike_out_of_fuel; assumption
    | alike_read
    | apply alike_construct; assumption | apply alike_call_factory; assumption
    | apply alike_cache_set; assumption
    | apply alike_resolveDeps; [assumption|]
    | apply alike_decorateStep; [assumption|]
    | apply alike_forM; [assumption|]
    | apply alike_mapM; [assumption|]
    | apply alike_bind
    | match goal with
      | H : gets _ ?w = (Ok _, _), H' : gets _ ?w' = (Ok _, _) |- _ =>
          unfold gets in H, H'; injection H as <- <-; injection H' as _ <-
      | IH : ∀ this, inS this → _ |- alike _ _ _ _ =>
          apply IH; [first [assumption | eapply agree_parent; eassumption] | assumption]
      | |- alike _ (match ?x with _ => _ end) _ _ => destruct x eqn:?
      | |- alike _ (let '(_, _) := ?x in _) _ _ => destruct x
      | |- alike _ ((let '(_, _) := ?x in _) _) _ _ => destruct x
      end ].

Lemma engine_alike fuel :
  (∀ this, inS this → ∀ t stk o w w', R w w' →
     alike R (resolveInternal fuel this t stk o) w w') ∧
  (∀ this, inS this → ∀ a stk o w w', R w w' →
     alike R (tryResolveFromCurrentContainer fuel this a stk o) w w') ∧
  (∀ this, inS this → ∀ a r stk w w', R w w' →
     alike R (resolveRegistration fuel this a r stk) w w') ∧
  (∀ this, inS this → ∀ a stk w w', R w w' →
     alike R (resolveMultiple fuel this a stk) w w') ∧
  (∀ this, inS this → ∀ a i stk w w', R w w' →
     alike R (applyDecorators fuel this a i stk) w w') ∧
  (∀ this, inS this → ∀ c stk w w', R w w' →
     alike R (resolveDependencyOnly fuel this c stk) w w').
Proof.
  induction fuel as [|fuel (IHri & IHtry & IHreg & IHmul & IHdec & IHdep)].
  { split_and!; intros; by apply alike_out_of_fuel. }
  split_and!; intros this Hthis; intros; simpl; repeat alike_step.
Qed.

Lemma public_alike fuel this w w' :
  inS this → R w w' →
  (∀ a, alike R (resolve fuel this a) w w') ∧
  (∀ a, alike R (resolveAll fuel this a) w w') ∧
  (∀ impl deps, alike R (resolveWithDependencies fuel this impl deps) w w').
Proof.
  intros Hthis HR.
  destruct (engine_alike fuel) as (Hri & _ & _ & Hmul & _).
  split_and!.
  - intros a. by apply Hri.
  - intros a. apply alike_bind; [by apply Hmul|].
    intros [rs stk] w1 w1' _ _ HR1. by apply alike_ret.
  - intros impl deps. apply alike_bind.
    + apply alike_resolveDeps; [done|]. intros t s o w1 w1' HR1. by apply Hri.
    + intros args w1 w1' _ _ HR1. by apply alike_construct.
Qed.
End alike.

(** X3.  What a container resolves is decided by the class metadata, the
    object counter and the containers of its own ancestor chain: two worlds
    that agree on these give the same outcome, for [resolve], [resolveAll]
    and [resolveWithDependencies], and agree on them afterwards. *)
Theorem resolution_reads_chain_only fuel this w w' l :
  ancestor_chain w this l →
  agree_on (.∈ l) w w' →
  (∀ a, alike (agree_on (.∈ l)) (resolve fuel this a) w w') ∧
  (∀ a, alike (agree_on (.∈ l)) (resolveAll fuel this a) w w') ∧
  (∀ impl deps,
     alike (agree_on (.∈ l)) (resolveWithDependencies fuel this impl deps) w w').
Proof.
  intros Hchain Hagree.
  destruct (public_alike w (.∈ l) (λ c p, ancestor_chain_closed w this l c p Hchain)
              fuel this w w' (ancestor_chain_head w this l Hchain))
    as (H1 & H2 & H3).
  { split; [reflexivity | done]. }
  split_and!.
  - intros a. destruct (H1 a) as [Ho [_ Ha]]. by split.
  - intros a. destruct (H2 a) as [Ho [_ Ha]]. by split.
  - intros impl deps. destruct (H3 impl deps) as [Ho [_ Ha]]. by split.
Qed.


(** * Registration calls *)

#[global] Instance only_tables_of_preorder this : PreOrder (only_tables_of this).
Proof.
  split.
  - intros w. by repeat split.
  - intros w1 w2 w3 (Hm1 & Ho1 & Hc1 & Hs1 & Hp1 & Hi1 & Hf1)
                   (Hm2 & Ho2 & Hc2 & Hs2 & Hp2 & Hi2 & Hf2).
    split_and!; try congruence. intros c Hc. by rewrite Hf1, Hf2.
Qed.

Lemma only_tables_of_set_container this c w :
  parent c = parent (container this w) →
  instances c = instances (container this w) →
  only_tables_of this w (set_container this c w).
Proof.
  intros Hp Hi. split_and!; try done.
  - by rewrite container_set_container.
  - by rewrite container_set_container.
  - intros c' Hc'. by rewrite container_set_container_ne.
Qed.

Section only_tables_of.
Context (this : cid).

Local Ltac tables_step :=
  first
    [ progress intros
    | apply (preserves_ret (only_tables_of this))
    | apply (preserves_throw (only_tables_of this))
    | apply (preserves_gets (only_tables_of this))
    | apply (preserves_bind (only_tables_of this))
    | match goal with
      | |- preserves _ (match ?x with _ => _ end) => destruct x
      | |- preserves _ (if ?x then _ else _) => destruct x
      end ].

Lemma set_registrations_only_tables k l : preserves (only_tables_of this) (set_registrations this k l).
Proof. intros w. by apply only_tables_of_set_container. Qed.

Lemma set_decorators_only_tables k l : preserves (only_tables_of this) (set_decorators this k l).
Proof. intros w. by apply only_tables_of_set_container. Qed.

Lemma set_factories_only_tables k l : preserves (only_tables_of this) (set_factories this k l).
Proof. intros w. by apply only_tables_of_set_container. Qed.

Lemma set_instanceRegistrations_only_tables k l :
  preserves (only_tables_of this) (set_instanceRegistrations this k l).
Proof. intros w. by apply only_tables_of_set_container. Qed.

Lemma set_composite_only_tables k r : preserves (only_tables_of this) (set_composite this k r).
Proof. intros w. by apply only_tables_of_set_container. Qed.

Lemma register_only_tables k : preserves (only_tables_of this) (register this k).
Proof.
  unfold register. repeat tables_step. apply set_registrations_only_tables.
Qed.

Lemma inSingletonScope_only_tables k i :
  preserves (only_tables_of this)
            (inSingletonScope {| rb_container := this; rb_token := k; rb_index := i |}).
Proof.
  unfold inSingletonScope. repeat tables_step. apply set_registrations_only_tables.
Qed.

Lemma register_builder k b w w' :
  register this k w = (Ok b, w') → rb_container b = this.
Proof.
  unfold register, bind, gets, throw, ret. cbn.
  destruct (md_isComposite _); [done|]. destruct (md_isDecorator _); [done|].
  destruct (md_abstraction _); [|done]. by intros [= <- _].
Qed.

Lemma perform_only_tables r : preserves (only_tables_of this) (perform this r).
Proof.
  destruct r as [impl|impl|a v|a f|d|impl]; cbn [perform].
  - apply (preserves_bind (only_tables_of this)); [apply register_only_tables|].
    intros. apply (preserves_ret (only_tables_of this)).
  - intros w. unfold bind.
    pose proof (register_only_tables impl w) as Hr.
    destruct (register this impl w) as [[b| |] w1] eqn:Hreg;
      simpl in Hr; [|exact Hr..].
    etrans; [exact Hr|].
    pose proof (register_builder _ _ _ _ Hreg) as Hb. destruct b as [c k i].
    simpl in Hb. subst c. apply inSingletonScope_only_tables.
  - unfold registerInstance. repeat tables_step. apply set_instanceRegistrations_only_tables.
  - unfold registerFactory. repeat tables_step. apply set_factories_only_tables.
  - unfold registerDecorator. repeat tables_step. apply set_decorators_only_tables.
  - unfold registerComposite. repeat tables_step. apply set_composite_only_tables.
Qed.
End only_tables_of.

Lemma only_tables_of_agree_on c w w' (S : cid → Prop) :
  only_tables_of c w w' → ¬ S c → agree_on S w w'.
Proof.
  intros (Hm & Ho & _ & _ & _ & _ & Hf) Hc. split_and!; [done..|].
  intros c' Hc'. apply Hf. by intros ->.
Qed.

(** X4.  A registration call of any kind on a container outside the
    ancestor chain of [this] (a child, a sibling, an unrelated container)
    changes nothing of what [this] resolves. *)
Theorem registration_elsewhere_is_invisible fuel this c r w l :
  ancestor_chain w this l →
  c ∉ l →
  (∀ a, (resolve fuel this a (exec (perform c r) w)).1 = (resolve fuel this a w).1) ∧
  (∀ a, (resolveAll fuel this a (exec (perform c r) w)).1 = (resolveAll fuel this a w).1) ∧
  (∀ impl deps,
     (resolveWithDependencies fuel this impl deps (exec (perform c r) w)).1 =
     (resolveWithDependencies fuel this impl deps w).1).
Proof.
  intros Hchain Hc.
  destruct (public_alike w (.∈ l) (λ c p, ancestor_chain_closed w this l c p Hchain)
              fuel this w (exec (perform c r) w) (ancestor_chain_head w this l Hchain))
    as (H1 & H2 & H3).
  { split; [reflexivity|].
    eapply only_tables_of_agree_on; [apply perform_only_tables | done]. }
  split_and!.
  - intros a. by destruct (H1 a) as [-> _].
  - intros a. by destruct (H2 a) as [-> _].
  - intros impl deps. by destruct (H3 impl deps) as [-> _].
Qed.

(** * Fresh objects *)

#[global] Instance grows_preorder : PreOrder grows.
Proof. split; unfold grows; [by intros w | intros w1 w2 w3; lia]. Qed.

Lemma grows_allocated w : grows w (allocated w).
Proof. unfold grows. simpl. lia. Qed.

Lemma grows_cache_set this key v w : grows w (cache_set this key v w).2.
Proof. by unfold grows. Qed.

Lemma engine_grows fuel :
  (∀ this t stk o, preserves grows (resolveInternal fuel this t stk o)) ∧
  (∀ this a stk o, preserves grows (tryResolveFromCurrentContainer fuel this a stk o)) ∧
  (∀ this a r stk, preserves grows (resolveRegistration fuel this a r stk)) ∧
  (∀ this a stk, preserves grows (resolveMultiple fuel this a stk)) ∧
  (∀ this a i stk, preserves grows (applyDecorators fuel this a i stk)) ∧
  (∀ this c stk, preserves grows (resolveDependencyOnly fuel this c stk)).
Proof. apply (engine_preserves grows grows_allocated grows_cache_set). Qed.

Lemma grows_run {A} (m : M A) w o w' : preserves grows m → m w = (o, w') → grows w w'.
Proof. intros Hm Hrun. specialize (Hm w). by rewrite Hrun in Hm. Qed.

Lemma created_between_wider w0 w w' w1 v :
  grows w0 w → grows w' w1 → created_between w w' v → created_between w0 w1 v.
Proof. unfold grows. intros H0 H1 (id & Hid & Hle). exists id. split; [done | lia]. Qed.

Lemma created_between_truthy w w' v : created_between w w' v → truthy v = true.
Proof. intros (id & Hid & _). by destruct v. Qed.

Lemma created_in_turn w w1 w2 v v' :
  created_between w w1 v → created_between w1 w2 v' →
  ∃ id id', object_id v = Some id ∧ object_id v' = Some id' ∧ id < id'.
Proof.
  intros (id & Hid & Hle) (id' & Hid' & Hle'). exists id, id'. split_and!; [done..|lia].
Qed.

Lemma construct_created cls args w v w' :
  construct cls args w = (Ok v, w') → created_between w w' v.
Proof.
  unfold construct. intros [= <- <-]. exists (next_object w). simpl. split; [done | lia].
Qed.

Lemma resolveDeps_grows fuel this stk deps :
  preserves grows (resolveDeps (resolveInternal fuel this) stk deps).
Proof.
  apply (preserves_resolveDeps grows).
  intros t s o. apply engine_grows.
Qed.

Lemma decorateStep_created fuel this stk result d w v w' :
  decorateStep (resolveInternal fuel this) stk result d w = (Ok v, w') →
  created_between w w' v.
Proof.
  unfold decorateStep. intros H.
  apply bind_Ok_inv in H as (deps & w1 & Hdeps & H).
  apply construct_created in H.
  eapply created_between_wider; [|reflexivity|done].
  eapply grows_run; [apply resolveDeps_grows | done].
Qed.

Lemma decorator_loop_created fuel this stk ds w0 base w v w' :
  grows w0 w → created_between w0 w base →
  forM ds (decorateStep (resolveInternal fuel this) stk) base w = (Ok v, w') →
  created_between w0 w' v.
Proof.
  revert base w. induction ds as [|d ds IH]; intros base w Hg Hb; simpl.
  - by intros [= <- <-].
  - intros H. apply bind_Ok_inv in H as (v1 & w1 & Hstep & H).
    apply decorateStep_created in Hstep.
    assert (grows w w1) as Hg1.
    { destruct Hstep as (id & _ & Hle). unfold grows. lia. }
    apply (IH _ _ (transitivity Hg Hg1)) in H; [done|].
    by eapply created_between_wider; [| |done].
Qed.

Lemma applyDecorators_created fuel this a base stk w0 w v w' :
  grows w0 w → created_between w0 w base →
  applyDecorators fuel this a base stk w = (Ok v, w') →
  created_between w0 w' v.
Proof.
  destruct fuel as [|fuel]; [done|]. cbn [applyDecorators].
  rewrite bind_gets. apply decorator_loop_created.
Qed.

(** A provider whose cache does not answer builds a new object. *)
Lemma resolveRegistration_created fuel this a reg stk w v stk' w1 :
  scope reg = Transient ∨ instances (container this w) !! instanceKey a reg = None →
  resolveRegistration fuel this a reg stk w = (Ok (v, stk'), w1) →
  created_between w w1 v.
Proof.
  intros Hmiss. destruct fuel as [|fuel]; [done|].
  cbn [resolveRegistration]. rewrite bind_gets.
  assert ((if decide (scope reg = Singleton)
           then match instances (container this w) !! instanceKey a reg with
                | Some existing => if truthy existing then Some existing else None
                | None => None
                end
           else None) = None) as ->.
  { destruct Hmiss as [Ht| ->]; [|by destruct (decide _)].
    rewrite decide_False; [done|]. by rewrite Ht. }
  intros H.
  apply bind_Ok_inv in H as (deps & w2 & Hdeps & H).
  apply bind_Ok_inv in H as (built & w3 & Hbuilt & H).
  apply bind_Ok_inv in H as (decorated & w4 & Hdec & H).
  apply bind_Ok_inv in H as ([] & w5 & Hset & [= <- _ <-]).
  assert (grows w w2) as Hg2 by (eapply grows_run; [apply resolveDeps_grows | done]).
  apply construct_created in Hbuilt.
  assert (grows w w3) as Hg3.
  { destruct Hbuilt as (id & _ & Hle). unfold grows in *. lia. }
  apply (applyDecorators_created _ _ _ _ _ w) in Hdec;
    [|done|by eapply created_between_wider; [| |done]].
  eapply created_between_wider; [reflexivity| |done].
  destruct (decide _); [|by injection Hset as <-].
  injection Hset as <-. by unfold grows.
Qed.

Lemma resolveRegistration_truthy fuel this a reg stk w v stk' w1 :
  resolveRegistration fuel this a reg stk w = (Ok (v, stk'), w1) → truthy v = true.
Proof.
  intros H. destruct (scope reg) eqn:Hscope.
  - apply resolveRegistration_created in H; [|by left].
    by apply created_between_truthy in H.
  - by apply resolveRegistration_singleton_cached in H as [_ ?].
Qed.

(** Single resolution on a container whose winning record is a provider is
    that provider's [resolveRegistration]. *)
Lemma resolve_provider fuel this a w reg v w1 :
  composites (container this w) !! token a = None →
  default [] (instanceRegistrations (container this w) !! token a) = [] →
  last (default [] (registrations (container this w) !! token a)) = Some reg →
  resolve fuel this a w = (Ok v, w1) →
  ∃ fuel0 stk', fuel = S (S fuel0) ∧
     resolveRegistration fuel0 this a reg ∅ w = (Ok (v, stk'), w1).
Proof.
  intros Hc Hi Hr Hrun. unfold resolve in Hrun.
  destruct fuel as [|[|fuel]]; [done| |].
  { rewrite resolveInternal_abstraction in Hrun. by simpl in Hrun. }
  exists fuel.
  rewrite resolveInternal_abstraction in Hrun.
  change (has ∅ (token a) && negb (multiple noOptions)) with false in Hrun.
  rewrite tryResolve_single, (localSingle_provider _ _ _ _ _ reg) in Hrun by done.
  destruct (resolveRegistration fuel this a reg ∅ w) as [[[result stk']| |] w'] eqn:Hreg;
    cbv beta iota in Hrun; [|done..].
  exists stk'. split; [done|].
  apply resolveRegistration_truthy in Hreg as Htruthy.
  rewrite (truthy_is_defined _ Htruthy) in Hrun. by injection Hrun as <- <-.
Qed.

(** Single resolution on a container with a composite builds the composite. *)
Lemma resolve_composite_created fuel this a w comp v w1 :
  composites (container this w) !! token a = Some comp →
  resolve fuel this a w = (Ok v, w1) →
  created_between w w1 v.
Proof.
  intros Hc Hrun. unfold resolve in Hrun.
  destruct fuel as [|[|fuel]]; [done| |].
  { rewrite resolveInternal_abstraction in Hrun. by simpl in Hrun. }
  rewrite resolveInternal_abstraction in Hrun.
  change (has ∅ (token a) && negb (multiple noOptions)) with false in Hrun.
  rewrite tryResolve_single in Hrun by done.
  unfold localSingle in Hrun. rewrite bind_gets, Hc in Hrun.
  destruct (bind _ _ w) as [[[result stk']| |] w'] eqn:Hloc;
    cbv beta iota in Hrun; [|done..].
  apply bind_Ok_inv in Hloc as (deps & w2 & Hdeps & H).
  apply bind_Ok_inv in H as (built & w3 & Hbuilt & [= <- _ <-]).
  apply construct_created in Hbuilt.
  assert (is_defined built = true) as Hdef.
  { apply truthy_is_defined. by eapply created_between_truthy. }
  rewrite Hdef in Hrun. injection Hrun as <- <-.
  eapply created_between_wider; [|reflexivity|done].
  eapply grows_run; [apply resolveDeps_grows | done].
Qed.

Lemma resolve_builds_anew fuel this a w v w1 :
  builds_anew a (container this w) →
  resolve fuel this a w = (Ok v, w1) →
  created_between w w1 v.
Proof.
  intros [[comp Hc]|(Hc & Hi & reg & Hr & Hscope)] Hrun.
  - by apply (resolve_composite_created fuel this a w comp).
  - destruct (resolve_provider _ _ _ _ _ _ _ Hc Hi Hr Hrun) as (fuel0 & stk' & _ & Hreg).
    apply resolveRegistration_created in Hreg; [done | by left].
Qed.

Lemma builds_anew_same_tables a this w w' :
  same_tables w w' → builds_anew a (container this w) → builds_anew a (container this w').
Proof.
  intros Hs. unfold builds_anew.
  by rewrite <- (same_composites w w' Hs), <- (same_instanceRegistrations w w' Hs),
             <- (same_registrations w w' Hs).
Qed.

(** X5.  Where the winning record is a composite or a provider in Transient
    scope, every [resolve] returns an object of its own: two successful
    requests, one after the other, return two different objects, the later
    one created after the earlier one. *)
Theorem transient_resolves_anew a this w fuel fuel' v v' w1 w2 :
  builds_anew a (container this w) →
  resolve fuel this a w = (Ok v, w1) →
  resolve fuel' this a w1 = (Ok v', w2) →
  ∃ id id', object_id v = Some id ∧ object_id v' = Some id' ∧ id < id'.
Proof.
  intros Hwin Hrun Hrun'.
  assert (same_tables w w1) as Hsame.
  { pose proof (resolveInternal_same_tables fuel this (TAbstraction a) ∅ noOptions w) as H.
    unfold resolve in Hrun. by rewrite Hrun in H. }
  eapply created_in_turn.
  - by apply (resolve_builds_anew fuel this a w).
  - apply (resolve_builds_anew fuel' this a w1); [|done].
    by apply (builds_anew_same_tables a this w).
Qed.

(** X6.  A container with a provider of its own does not receive the object of
    another container.  If [C] and [D] both have a winning provider for [a]
    with nothing cached, and [D] is not [C] or one of its ancestors, then
    resolving on [C] and afterwards on [D] gives two different objects,
    whatever the scopes are. *)
Theorem providers_are_per_container a w C D regC regD l fuel fuel' v v' w1 w2 :
  provider_pending a (container C w) regC →
  provider_pending a (container D w) regD →
  ancestor_chain w C l →
  D ∉ l →
  resolve fuel C a w = (Ok v, w1) →
  resolve fuel' D a w1 = (Ok v', w2) →
  ∃ id id', object_id v = Some id ∧ object_id v' = Some id' ∧ id < id'.
Proof.
  intros (HcC & HiC & HrC & HmC) (HcD & HiD & HrD & HmD) Hchain HD Hrun Hrun'.
  destruct (public_touches_chain fuel C w l Hchain) as (Htouch & _).
  specialize (Htouch a). rewrite Hrun in Htouch.
  destruct Htouch as (Hsame & _ & _ & _ & Hout). simpl in Hsame, Hout.
  destruct (resolve_provider _ _ _ _ _ _ _ HcC HiC HrC Hrun) as (f0 & stk0 & _ & Hreg).
  apply resolveRegistration_created in Hreg; [|by right].
  rewrite (same_composites w w1 Hsame) in HcD.
  rewrite (same_instanceRegistrations w w1 Hsame) in HiD.
  rewrite (same_registrations w w1 Hsame) in HrD.
  rewrite (Hout D HD) in HmD.
  destruct (resolve_provider _ _ _ _ _ _ _ HcD HiD HrD Hrun') as (f1 & stk1 & _ & Hreg').
  apply resolveRegistration_created in Hreg'; [|by right].
  by eapply created_in_turn.
Qed.

(** * Registering, then resolving *)

Lemma resolve_fuel fuel n : n ≤ fuel → ∃ k, fuel = n + k.
Proof. intros H. exists (fuel - n). lia. Qed.

(** X7.  [registerInstance] then [resolve] hands back the registered value
    itself, whatever providers, factories or older instances the container
    holds, and changes nothing more; only a composite or decorators for the
    contract stand in the way. *)
Theorem registerInstance_then_resolve this a v w fuel :
  composites (container this w) !! token a = None →
  default [] (decorators (container this w) !! token a) = [] →
  is_defined v = true →
  3 ≤ fuel →
  resolve fuel this a (exec (registerInstance this a v) w) =
  (Ok v, exec (registerInstance this a v) w).
Proof.
  intros Hc Hd Hv Hfuel.
  destruct (resolve_fuel fuel 3 Hfuel) as [k ->]. clear Hfuel.
  change (3 + k) with (S (S (S k))).
  set (w' := exec (registerInstance this a v) w).
  assert (container this w' =
          let c := container this w in
          {| registrations := registrations c; decorators := decorators c;
             instances := instances c; factories := factories c;
             instanceRegistrations :=
               <[token a := default [] (instanceRegistrations c !! token a) ++
                            [{| instance := v |}]]> (instanceRegistrations c);
             composites := composites c; parent := parent c |}) as Hw'.
  { unfold w', exec, registerInstance. rewrite bind_gets. simpl.
    by rewrite container_set_container. }
  assert (composites (container this w') = composites (container this w)) as HwC
    by (by rewrite Hw').
  assert (decorators (container this w') = decorators (container this w)) as HwD
    by (by rewrite Hw').
  assert (last (default [] (instanceRegistrations (container this w') !! token a)) =
          Some {| instance := v |}) as HwI.
  { rewrite Hw'. cbn [instanceRegistrations]. rewrite lookup_insert_eq. apply last_snoc. }
  unfold resolve. rewrite resolveInternal_abstraction.
  change (has ∅ (token a) && negb (multiple noOptions)) with false.
  rewrite tryResolve_single by done.
  unfold localSingle. rewrite bind_gets, HwC, Hc, HwI.
  rewrite <- HwD in Hd.
  rewrite (bind_Ok _ _ _ _ _ (applyDecorators_none k this a v ∅ w' Hd)).
  cbn [instance ret]. by rewrite Hv.
Qed.

Lemma resolveDeps_length resolve stk deps w args w' :
  resolveDeps resolve stk deps w = (Ok args, w') → length args = length deps.
Proof. apply mapM_length. Qed.

(** A provider that is built (not answered from the cache) is an instance of
    its class with one argument per dependency, unless decorators wrap it. *)
Lemma resolveRegistration_built fuel this a reg stk w v stk' w1 :
  scope reg = Transient →
  default [] (decorators (container this w) !! token a) = [] →
  resolveRegistration fuel this a reg stk w = (Ok (v, stk'), w1) →
  ∃ id args, v = VObject id (implementation reg) args ∧
             length args = length (dependencies reg).
Proof.
  intros Hscope Hd. destruct fuel as [|fuel]; [done|].
  cbn [resolveRegistration]. rewrite bind_gets.
  rewrite decide_False by (by rewrite Hscope).
  intros H.
  apply bind_Ok_inv in H as (deps & w2 & Hdeps & H).
  apply bind_Ok_inv in H as (built & w3 & Hbuilt & H).
  apply bind_Ok_inv in H as (decorated & w4 & Hdec & H).
  apply bind_Ok_inv in H as ([] & w5 & _ & [= <- _ _]).
  unfold construct in Hbuilt. injection Hbuilt as <- <-.
  assert (same_tables w (allocated w2)) as Hsame.
  { etrans; [|apply same_tables_allocated].
    pose proof (preserves_resolveDeps same_tables (resolveInternal fuel this)
                  (<[token a:=true]> stk) (dependencies reg)
                  (λ t s o, resolveInternal_same_tables fuel this t s o) w) as Hs.
    by rewrite Hdeps in Hs. }
  destruct fuel as [|fuel]; [done|].
  rewrite applyDecorators_none in Hdec
    by (by rewrite <- (same_decorators w (allocated w2) Hsame)).
  injection Hdec as <- _.
  eexists _, _. split; [done|]. by apply resolveDeps_length in Hdeps.
Qed.

Lemma resolve_composite_built fuel this a w comp v w1 :
  composites (container this w) !! token a = Some comp →
  resolve fuel this a w = (Ok v, w1) →
  ∃ id args, v = VObject id (implementation comp) args ∧
             length args = length (dependencies comp).
Proof.
  intros Hc Hrun. unfold resolve in Hrun.
  destruct fuel as [|[|fuel]]; [done| |].
  { rewrite resolveInternal_abstraction in Hrun. by simpl in Hrun. }
  rewrite resolveInternal_abstraction in Hrun.
  change (has ∅ (token a) && negb (multiple noOptions)) with false in Hrun.
  rewrite tryResolve_single in Hrun by done.
  unfold localSingle in Hrun. rewrite bind_gets, Hc in Hrun.
  destruct (bind _ _ w) as [[[result stk']| |] w'] eqn:Hloc;
    cbv beta iota in Hrun; [|done..].
  apply bind_Ok_inv in Hloc as (deps & w2 & Hdeps & H).
  apply bind_Ok_inv in H as (built & w3 & Hbuilt & [= <- _ <-]).
  unfold construct in Hbuilt. injection Hbuilt as <- <-.
  simpl in Hrun. injection Hrun as <- _.
  eexists _, _. split; [done|]. by apply resolveDeps_length in Hdeps.
Qed.

(** X8.  [register] then [resolve]: the class registered last wins over every
    provider and factory registered before.  If the container has no
    composite, instance or decorator for the contract, a successful [resolve]
    returns an instance of that class, built with one argument per declared
    dependency; and for a class without dependencies [resolve] does succeed,
    with a new object. *)
Theorem register_then_resolve this k a w :
  md_isComposite (class_metadata k w) = false →
  md_isDecorator (class_metadata k w) = false →
  md_abstraction (class_metadata k w) = Some a →
  composites (container this w) !! token a = None →
  default [] (instanceRegistrations (container this w) !! token a) = [] →
  default [] (decorators (container this w) !! token a) = [] →
  let w' := exec (register this k) w in
  (∀ fuel v w1,
     resolve fuel this a w' = (Ok v, w1) →
     ∃ id args, v = VObject id k args ∧
                length args = length (default [] (md_dependencies (class_metadata k w)))) ∧
  (default [] (md_dependencies (class_metadata k w)) = [] →
   ∀ fuel, 4 ≤ fuel →
     resolve fuel this a w' = (Ok (VObject (next_object w) k []), allocated w')).
Proof.
  intros Hcomp Hdec Ha Hc Hi Hd w'.
  set (reg := {| implementation := k;
                 dependencies := default [] (md_dependencies (class_metadata k w));
                 scope := Transient |}).
  assert (container this w' =
          let c := container this w in
          {| registrations :=
               <[token a := default [] (registrations c !! token a) ++ [reg]]>
                 (registrations c);
             decorators := decorators c;
             instances := instances c; factories := factories c;
             instanceRegistrations := instanceRegistrations c;
             composites := composites c; parent := parent c |}) as Hw'.
  { unfold w', exec, register. rewrite bind_gets, Hcomp, Hdec, Ha, bind_gets. simpl.
    by rewrite container_set_container. }
  assert (next_object w' = next_object w) as Hn.
  { unfold w', exec, register. by rewrite bind_gets, Hcomp, Hdec, Ha, bind_gets. }
  assert (composites (container this w') !! token a = None) as HwC by (by rewrite Hw').
  assert (default [] (instanceRegistrations (container this w') !! token a) = []) as HwI
    by (by rewrite Hw').
  assert (default [] (decorators (container this w') !! token a) = []) as HwD
    by (by rewrite Hw').
  assert (last (default [] (registrations (container this w') !! token a)) = Some reg)
    as HwR.
  { rewrite Hw'. cbn [registrations]. rewrite lookup_insert_eq. apply last_snoc. }
  split.
  - intros fuel v w1 Hrun.
    destruct (resolve_provider _ _ _ _ _ _ _ HwC HwI HwR Hrun) as (f0 & stk' & _ & Hreg).
    by apply resolveRegistration_built in Hreg.
  - intros Hnodeps fuel Hfuel.
    destruct (resolve_fuel fuel 4 Hfuel) as [n ->]. clear Hfuel.
    change (4 + n) with (S (S (S (S n)))).
    unfold resolve. rewrite resolveInternal_abstraction.
    change (has ∅ (token a) && negb (multiple noOptions)) with false.
    rewrite tryResolve_single by done.
    rewrite (localSingle_provider _ _ _ _ _ reg) by done.
    cbn [resolveRegistration]. rewrite bind_gets.
    cbn [scope reg dependencies implementation]. rewrite Hnodeps.
    rewrite decide_False by done.
    cbn [resolveDeps mapM]. rewrite bind_ret_l.
    unfold construct at 1. unfold bind at 1.
    rewrite (bind_Ok _ _ _ _ _ (applyDecorators_none n this a _ _ (allocated w') HwD)).
    rewrite decide_False by done. rewrite bind_ret_l. cbn [ret is_defined].
    by rewrite Hn.
Qed.

(** X9.  [registerComposite] then [resolve]: whatever else the container holds
    for the contract (instances, providers, factories, decorators), a
    successful [resolve] returns an instance of the composite class, built
    with one argument per declared dependency. *)
Theorem registerComposite_then_resolve this k a w fuel v w1 :
  md_isComposite (class_metadata k w) = true →
  md_abstraction (class_metadata k w) = Some a →
  resolve fuel this a (exec (registerComposite this k) w) = (Ok v, w1) →
  ∃ id args, v = VObject id k args ∧
             length args = length (default [] (md_dependencies (class_metadata k w))).
Proof.
  intros Hcomp Ha Hrun.
  set (reg := {| implementation := k;
                 dependencies := default [] (md_dependencies (class_metadata k w));
                 scope := Transient |}).
  apply (resolve_composite_built fuel this a (exec (registerComposite this k) w) reg v w1);
    [|done].
  unfold exec, registerComposite. rewrite bind_gets, Hcomp, Ha. simpl.
  rewrite container_set_container. simpl. apply lookup_insert_eq.
Qed.

(** X10.  [registerFactory] then [resolve]: with no composite, instance,
    provider or decorator for the contract in the container, [resolve] calls
    the factory registered last, once, and returns what it returns. *)
Theorem registerFactory_then_resolve this a (f : Factory) w fuel :
  composites (container this w) !! token a = None →
  default [] (instanceRegistrations (container this w) !! token a) = [] →
  default [] (registrations (container this w) !! token a) = [] →
  default [] (decorators (container this w) !! token a) = [] →
  is_defined (f (next_object w)) = true →
  3 ≤ fuel →
  resolve fuel this a (exec (registerFactory this a f) w) =
  (Ok (f (next_object w)), allocated (exec (registerFactory this a f) w)).
Proof.
  intros Hc Hi Hr Hd Hv Hfuel.
  destruct (resolve_fuel fuel 3 Hfuel) as [k ->]. clear Hfuel.
  change (3 + k) with (S (S (S k))).
  set (w' := exec (registerFactory this a f) w).
  assert (container this w' =
          let c := container this w in
          {| registrations := registrations c; decorators := decorators c;
             instances := instances c;
             factories :=
               <[token a := default [] (factories c !! token a) ++ [f]]> (factories c);
             instanceRegistrations := instanceRegistrations c;
             composites := composites c; parent := parent c |}) as Hw'.
  { unfold w', exec, registerFactory. rewrite bind_gets. simpl.
    by rewrite container_set_container. }
  assert (next_object w' = next_object w) as Hn by done.
  assert (composites (container this w') !! token a = None) as HwC by (by rewrite Hw').
  assert (last (default [] (instanceRegistrations (container this w') !! token a)) = None)
    as HwI by (by rewrite Hw'; cbn [instanceRegistrations]; rewrite Hi).
  assert (last (default [] (registrations (container this w') !! token a)) = None)
    as HwR by (by rewrite Hw'; cbn [registrations]; rewrite Hr).
  assert (default [] (decorators (container this w') !! token a) = []) as HwD
    by (by rewrite Hw').
  assert (last (default [] (factories (container this w') !! token a)) = Some f) as HwF.
  { rewrite Hw'. cbn [factories]. rewrite lookup_insert_eq. apply last_snoc. }
  unfold resolve. rewrite resolveInternal_abstraction.
  change (has ∅ (token a) && negb (multiple noOptions)) with false.
  rewrite tryResolve_single by done.
  unfold localSingle. rewrite bind_gets, HwC, HwI, HwR, HwF.
  unfold call_factory at 1. unfold bind at 1.
  rewrite (bind_Ok _ _ _ _ _ (applyDecorators_none k this a _ _ (allocated w') HwD)).
  cbn [ret]. by rewrite Hn, Hv.
Qed.

(** Once a winning Singleton provider has answered, it answers the same
    again. *)
Lemma resolve_singleton_again a w this reg fuel v w1 :
  composites (container this w) !! token a = None →
  default [] (instanceRegistrations (container this w) !! token a) = [] →
  last (default [] (registrations (container this w) !! token a)) = Some reg →
  scope reg = Singleton →
  resolve fuel this a w = (Ok v, w1) →
  ∀ fuel', 3 ≤ fuel' → resolve fuel' this a w1 = (Ok v, w1).
Proof.
  intros Hc Hi Hr Hscope Hrun.
  assert (Hsame : same_tables w w1).
  { pose proof (resolveInternal_same_tables fuel this (TAbstraction a) ∅ noOptions w) as H.
    unfold resolve in Hrun. by rewrite Hrun in H. }
  destruct (resolve_provider _ _ _ _ _ _ _ Hc Hi Hr Hrun) as (f0 & stk' & _ & Hreg).
  apply resolveRegistration_singleton_cached in Hreg as [Hcache Htruthy]; [|done].
  intros [|[|[|fuel']]] Hfuel; [lia..|]. clear Hfuel.
  unfold resolve. rewrite resolveInternal_abstraction.
  change (has ∅ (token a) && negb (multiple noOptions)) with false.
  rewrite tryResolve_single by done.
  rewrite (localSingle_provider _ _ _ _ _ reg).
  - rewrite (resolveRegistration_cache_hit _ _ _ _ _ _ v) by done.
    by rewrite (truthy_is_defined _ Htruthy).
  - by rewrite <- (same_composites w w1 Hsame).
  - by rewrite <- (same_instanceRegistrations w w1 Hsame).
  - by rewrite <- (same_registrations w w1 Hsame).
Qed.

(** X11.  [register(k).inSingletonScope()] then [resolve]: if the container has
    no composite and no instance for the contract, whatever the first
    successful [resolve] returns is returned by every later [resolve] on that
    container, which changes nothing any more. *)
Theorem singleton_scope_then_resolve this k a w fuel v w1 :
  md_isComposite (class_metadata k w) = false →
  md_isDecorator (class_metadata k w) = false →
  md_abstraction (class_metadata k w) = Some a →
  composites (container this w) !! token a = None →
  default [] (instanceRegistrations (container this w) !! token a) = [] →
  resolve fuel this a (exec (perform this (RegisterSingleton k)) w) = (Ok v, w1) →
  ∀ fuel', 3 ≤ fuel' → resolve fuel' this a w1 = (Ok v, w1).
Proof.
  intros Hcomp Hdec Ha Hc Hi.
  set (w' := exec (perform this (RegisterSingleton k)) w).
  set (reg := {| implementation := k;
                 dependencies := default [] (md_dependencies (class_metadata k w));
                 scope := Singleton |}).
  assert (container this w' =
          let c := container this w in
          {| registrations :=
               <[token a := default [] (registrations c !! token a) ++ [reg]]>
                 (<[token a := default [] (registrations c !! token a) ++
                      [{| implementation := k;
                          dependencies := default [] (md_dependencies (class_metadata k w));
                          scope := Transient |}]]> (registrations c));
             decorators := decorators c;
             instances := instances c; factories := factories c;
             instanceRegistrations := instanceRegistrations c;
             composites := composites c; parent := parent c |}) as Hw'.
  { unfold w', exec, perform, register.
    rewrite bind_assoc, bind_gets, Hcomp, Hdec, Ha, bind_assoc, bind_gets, bind_assoc.
    unfold set_registrations at 1, modify, bind at 1.
    rewrite bind_ret_l. unfold inSingletonScope. rewrite bind_gets.
    cbn [rb_container rb_token rb_index].
    rewrite !container_set_container. cbn [registrations].
    rewrite lookup_insert_eq. cbn [default from_option].
    unfold set_registrations, modify. cbn [snd].
    rewrite !container_set_container. cbn.
    replace (length (default [] (registrations (container this w) !! token a)))
      with (length (default [] (registrations (container this w) !! token a)) + 0) by lia.
    by rewrite alter_app_r. }
  apply (resolve_singleton_again a w' this reg); [by rewrite Hw'..| |done].
  rewrite Hw'. cbn [registrations]. rewrite lookup_insert_eq. apply last_snoc.
Qed.

(** * Child containers *)

Lemma createChildContainer_container this w :
  container (next_container w) (exec (createChildContainer this) w) =
  {| registrations := ∅; decorators := ∅; instances := ∅; factories := ∅;
     instanceRegistrations := ∅; composites := ∅; parent := Some this |}.
Proof. unfold container, exec. simpl. apply lookup_total_insert_eq. Qed.

Lemma createChildContainer_others this w d :
  d ≠ next_container w →
  container d (exec (createChildContainer this) w) = container d w.
Proof. intros Hd. unfold container, exec. simpl. by apply lookup_total_insert_ne. Qed.

Lemma createChildContainer_agree this w (S : cid → Prop) :
  ¬ S (next_container w) → agree_on S w (exec (createChildContainer this) w).
Proof.
  intros Hc. split_and!; [done..|]. intros d Hd. symmetry.
  apply createChildContainer_others. by intros ->.
Qed.

(** A container that holds nothing asks its parent. *)
Lemma resolve_through_empty fuel c this a w :
  tables (container c w) = tables {| registrations := ∅; decorators := ∅; instances := ∅;
                                     factories := ∅; instanceRegistrations := ∅;
                                     composites := ∅; parent := Some this |} →
  resolve (S (S fuel)) c a w = resolve (S fuel) this a w ∧
  resolveAll (S fuel) c a w = resolveAll fuel this a w.
Proof.
  intros Ht. injection Ht as Hr Hd Hf Hi Hc Hp. split.
  - unfold resolve. apply resolveInternal_skip; [|done..].
    unfold no_registration. by rewrite Hc, Hi, Hr, Hf.
  - unfold resolveAll.
    assert (resolveMultiple (S fuel) c a ∅ w = resolveMultiple fuel this a ∅ w) as Hmul.
    { cbn [resolveMultiple]. rewrite bind_gets, Hp, bind_assoc.
      pose proof (resolveMultiple_same_tables fuel this a ∅ w) as Hsame.
      destruct (resolveMultiple fuel this a ∅ w) as [[[rs stk]| |] w1] eqn:Hrun.
      - rewrite (bind_Ok _ _ _ _ _ Hrun). simpl in Hsame.
        rewrite bind_ret_l, !bind_gets.
        rewrite <- (same_registrations w w1 Hsame),
                <- (same_instanceRegistrations w w1 Hsame),
                <- (same_factories w w1 Hsame), Hr, Hi, Hf.
        done.
      - by rewrite (bind_Throw _ _ _ _ _ Hrun).
      - by rewrite (bind_OutOfFuel _ _ _ _ Hrun). }
    unfold bind. by rewrite Hmul.
Qed.

(** X12.  A new child container answers every [resolve] and [resolveAll] as its
    parent does; and creating it changes nothing of what the parent or any
    other existing container resolves. *)
Theorem child_container_inherits this w l fuel a :
  ancestor_chain w this l →
  next_container w ∉ l →
  let child := next_container w in
  let w' := exec (createChildContainer this) w in
  (createChildContainer this w).1 = Ok child ∧
  resolve (S (S fuel)) child a w' = resolve (S fuel) this a w' ∧
  resolveAll (S fuel) child a w' = resolveAll fuel this a w' ∧
  (resolve fuel this a w').1 = (resolve fuel this a w).1 ∧
  (resolveAll fuel this a w').1 = (resolveAll fuel this a w).1.
Proof.
  intros Hchain Hfresh child w'. split; [done|].
  destruct (resolve_through_empty fuel child this a w') as [H1 H2].
  { unfold child, w'. by rewrite createChildContainer_container. }
  split; [done|]. split; [done|].
  destruct (public_alike w (.∈ l) (λ c p, ancestor_chain_closed w this l c p Hchain)
              fuel this w w' (ancestor_chain_head w this l Hchain))
    as (H3 & H4 & _).
  { split; [reflexivity|]. by apply createChildContainer_agree. }
  split.
  - by destruct (H3 a) as [-> _].
  - by destruct (H4 a) as [-> _].
Qed.

(** * Failing and unrelated registrations *)

(** X13.  A registration call that throws has changed nothing; and
    [registerInstance] and [registerFactory] never throw. *)
Theorem failed_registration_changes_nothing this r w e :
  (perform this r w).1 = Throw e →
  exec (perform this r) w = w ∧
  (∀ a v, r ≠ RegisterInstance a v) ∧ (∀ a f, r ≠ RegisterFactory a f).
Proof.
  unfold exec. destruct r as [k|k|a v|a f|k|k]; cbn [perform].
  - unfold register. rewrite bind_assoc, bind_gets.
    destruct (md_isComposite _); [done|]. destruct (md_isDecorator _); [done|].
    destruct (md_abstraction _); done.
  - unfold register. rewrite bind_assoc, bind_gets.
    destruct (md_isComposite _); [done|]. destruct (md_isDecorator _); [done|].
    destruct (md_abstraction _); done.
  - done.
  - done.
  - unfold registerDecorator. rewrite bind_gets.
    destruct (md_isDecorator _); [|done]. destruct (md_abstraction _); done.
  - unfold registerComposite. rewrite bind_gets.
    destruct (md_isComposite _); [|done]. destruct (md_abstraction _); done.
Qed.

Lemma class_metadata_set_metadata k k' md w :
  class_metadata k (set_metadata k' md w) =
  if decide (k = k') then md else class_metadata k w.
Proof.
  unfold class_metadata, set_metadata. simpl.
  destruct (decide (k = k')) as [->|Hne].
  - by rewrite lookup_insert_eq.
  - by rewrite lookup_insert_ne.
Qed.

Lemma declare_keeps_roles d k w :
  (md_isDecorator (class_metadata k w) = true →
   md_isDecorator (class_metadata k (exec (declare d) w)) = true) ∧
  (md_isComposite (class_metadata k w) = true →
   md_isComposite (class_metadata k (exec (declare d) w)) = true).
Proof.
  destruct d as [a k' deps|a k' deps|a k' deps|k' deps]; unfold exec; simpl;
    rewrite class_metadata_set_metadata;
    (destruct (decide (k = k')) as [->|]; [simpl|done]); auto.
Qed.

Lemma declarations_keep_roles ds k w :
  (md_isDecorator (class_metadata k w) = true →
   md_isDecorator (class_metadata k (exec (mapM declare ds) w)) = true) ∧
  (md_isComposite (class_metadata k w) = true →
   md_isComposite (class_metadata k (exec (mapM declare ds) w)) = true).
Proof.
  revert w. induction ds as [|d ds IH]; intros w; [done|].
  assert (exec (mapM declare (d :: ds)) w = exec (mapM declare ds) (exec (declare d) w))
    as ->.
  { unfold exec. cbn [mapM]. unfold bind at 1.
    destruct (declare d w) as [[k0| |] w1] eqn:Hd; cbn [snd].
    - unfold bind. by destruct (mapM declare ds w1) as [[?| |] ?].
    - by destruct d.
    - by destruct d. }
  destruct (declare_keeps_roles d k w) as [Hd Hc].
  destruct (IH (exec (declare d) w)) as [IHd IHc]. auto.
Qed.

(** X14.  No [create*] call ever takes a role back.  Once a class has been
    declared a decorator or a composite, it stays one whatever is declared
    afterwards, for it or for other classes, and [register] keeps refusing
    it on every container. *)
Theorem declared_role_is_permanent k w ds this :
  md_isDecorator (class_metadata k w) || md_isComposite (class_metadata k w) = true →
  let w' := exec (mapM declare ds) w in
  md_isDecorator (class_metadata k w') || md_isComposite (class_metadata k w') = true ∧
  ∃ e, register this k w' = (Throw e, w').
Proof.
  intros Hrole w'.
  destruct (declarations_keep_roles ds k w) as [Hd Hc]. fold w' in Hd, Hc.
  assert (md_isDecorator (class_metadata k w') || md_isComposite (class_metadata k w') = true)
    as Hrole'.
  { apply orb_true_iff in Hrole as [H|H]; apply orb_true_iff; auto. }
  split; [done|].
  unfold register. rewrite bind_gets.
  destruct (md_isComposite (class_metadata k w')); [by eexists|].
  rewrite orb_false_r in Hrole'. rewrite Hrole'. by eexists.
Qed.

Lemma ancestor_chain_parents w w' this l :
  (∀ c, parent (container c w) = parent (container c w')) →
  ancestor_chain w this l → ancestor_chain w' this l.
Proof.
  intros Hp. induction 1 as [this Hroot|this p l Hpar _ IH].
  - apply chain_root. by rewrite <- Hp.
  - apply chain_child with p; [by rewrite <- Hp | done].
Qed.

Lemma only_tables_of_parents c w w' d :
  only_tables_of c w w' → parent (container d w) = parent (container d w').
Proof.
  intros (_ & _ & _ & _ & Hp & _ & Hf).
  destruct (decide (d = c)) as [->|Hne]; [done|]. by rewrite (Hf d Hne).
Qed.

(** A registration call leaves what a container holds for other contracts
    as it was. *)
Lemma perform_other_contract c r w a d :
  (∀ a', contract_of r w = Some a' → token a' ≠ token a) →
  no_registration a (container d w) →
  no_registration a (container d (exec (perform c r) w)).
Proof.
  intros Hother Hno.
  destruct (decide (d = c)) as [->|Hne].
  2: { destruct (perform_only_tables c r w) as (_ & _ & _ & _ & _ & _ & Hf).
       unfold exec. by rewrite <- (Hf d Hne). }
  destruct Hno as (Hc & Hi & Hr & Hf). unfold exec, no_registration.
  destruct r as [k|k|a' v|a' f|k|k]; cbn [perform contract_of] in *.
  - unfold register. rewrite bind_assoc, bind_gets.
    destruct (md_isComposite _); [done|]. destruct (md_isDecorator _); [done|].
    destruct (md_abstraction _) as [a'|]; [|done].
    specialize (Hother a' eq_refl).
    rewrite bind_assoc, bind_gets. simpl. rewrite container_set_container. simpl.
    by rewrite lookup_insert_ne.
  - unfold register. rewrite bind_assoc, bind_gets.
    destruct (md_isComposite _); [done|]. destruct (md_isDecorator _); [done|].
    destruct (md_abstraction _) as [a'|]; [|done].
    specialize (Hother a' eq_refl).
    rewrite bind_assoc, bind_gets. simpl. rewrite !container_set_container. simpl.
    by rewrite !lookup_insert_ne.
  - specialize (Hother a' eq_refl). unfold registerInstance. rewrite bind_gets. simpl.
    rewrite container_set_container. simpl. by rewrite lookup_insert_ne.
  - specialize (Hother a' eq_refl). unfold registerFactory. rewrite bind_gets. simpl.
    rewrite container_set_container. simpl. by rewrite lookup_insert_ne.
  - unfold registerDecorator. rewrite bind_gets.
    destruct (md_isDecorator _); [|done]. cbn [negb].
    destruct (md_abstraction _) as [a'|]; [|done].
    rewrite bind_gets. simpl. by rewrite container_set_container.
  - unfold registerComposite. rewrite bind_gets.
    destruct (md_isComposite _); [|done]. cbn [negb].
    destruct (md_abstraction _) as [a'|]; [|done].
    specialize (Hother a' eq_refl). simpl.
    rewrite container_set_container. simpl. by rewrite lookup_insert_ne.
Qed.

(** X15.  Registrations are filed under the identity of the contract, not its
    name.  A contract with no registration in a container and its ancestors
    stays unresolvable after any registration call made for another
    contract, be it one with the same name. *)
Theorem other_contract_stays_unregistered a w l this c r fuel :
  ancestor_chain w this l →
  Forall (λ d, no_registration a (container d w)) l →
  (∀ a', contract_of r w = Some a' → token a' ≠ token a) →
  length l < fuel →
  resolve fuel this a (exec (perform c r) w) =
  (Throw ("No registration found for " +:+ toString a), exec (perform c r) w).
Proof.
  intros Hchain Hall Hother Hfuel. unfold resolve.
  rewrite (resolveInternal_unregistered a ∅ noOptions _ l); [done..| | |done].
  - apply (ancestor_chain_parents w); [|done].
    intros d. apply (only_tables_of_parents c). apply perform_only_tables.
  - eapply Forall_impl; [done|]. intros d Hno. by apply perform_other_contract.
Qed.

(** * Dependencies *)

Lemma mapM_app_cons {A B} (f : A → M B) before x after w :
  mapM f (before ++ x :: after) w =
  (let* ys := mapM f before in
   let* y := f x in
   let* zs := mapM f after in
   ret (ys ++ y :: zs)) w.
Proof.
  revert w. induction before as [|b before IH]; intros w.
  - cbn [app mapM]. by rewrite bind_ret_l.
  - cbn [app mapM]. rewrite !bind_assoc. apply bind_ext. intros y w1.
    rewrite bind_assoc. unfold bind at 1. rewrite IH.
    unfold bind, ret. destruct (mapM f before w1) as [[ys| |] w2]; [|done..].
    destruct (f x w2) as [[y'| |] w3]; [|done..].
    by destruct (mapM f after w3) as [[zs| |] w4].
Qed.

Lemma has_insert (stk : gmap symbol bool) k : has (<[k := true]> stk) k = true.
Proof. unfold has. apply bool_decide_eq_true. rewrite lookup_insert_eq. by eexists. Qed.

(** X16.  A provider that lists its own contract among its dependencies (not as
    a [multiple] dependency) cannot be resolved: once the dependencies before
    it are resolved, [resolve] throws the circular-dependency error, and no
    object of the provider is built or cached. *)
Theorem dependency_on_itself_is_circular a w this reg before dep after o fuel args w0 :
  composites (container this w) !! token a = None →
  default [] (instanceRegistrations (container this w) !! token a) = [] →
  last (default [] (registrations (container this w) !! token a)) = Some reg →
  scope reg = Transient ∨ instances (container this w) !! instanceKey a reg = None →
  dependencies reg = before ++ dep :: after →
  splitDependency dep = (TAbstraction a, o) →
  multiple o = false →
  resolveDeps (resolveInternal (S fuel) this) {[token a := true]} before w = (Ok args, w0) →
  resolve (S (S (S (S fuel)))) this a w =
  (Throw ("Circular dependency detected for " +:+ toString a), w0).
Proof.
  intros Hc Hi Hr Hmiss Hdeps Hdep Hm Hbefore.
  unfold resolve. rewrite resolveInternal_abstraction.
  change (has ∅ (token a) && negb (multiple noOptions)) with false.
  rewrite tryResolve_single by done.
  rewrite (localSingle_provider _ _ _ _ _ reg) by done.
  cbn [resolveRegistration]. rewrite bind_gets.
  assert ((if decide (scope reg = Singleton)
           then match instances (container this w) !! instanceKey a reg with
                | Some existing => if truthy existing then Some existing else None
                | None => None
                end
           else None) = None) as ->.
  { destruct Hmiss as [Ht| ->]; [|by destruct (decide _)].
    rewrite decide_False; [done|]. by rewrite Ht. }
  rewrite Hdeps. unfold resolveDeps at 1. unfold bind at 1.
  rewrite mapM_app_cons.
  change (<[token a:=true]> (∅ : gmap symbol bool)) with ({[token a := true]} : gmap symbol bool).
  unfold resolveDeps in Hbefore. rewrite (bind_Ok _ _ _ _ _ Hbefore).
  unfold bind at 1. rewrite Hdep.
  rewrite resolveInternal_abstraction.
  change ({[token a := true]} : gmap symbol bool) with (<[token a:=true]> (∅ : gmap symbol bool)).
  by rewrite has_insert, Hm.
Qed.

Lemma no_registration_nothing_to_collect a c :
  no_registration a c → nothing_to_collect a c.
Proof. by intros (_ & Hi & Hr & Hf). Qed.

(** A request for all objects of a contract that nobody has registered. *)
Lemma resolveInternal_collects_nothing a stk o w l this fuel :
  multiple o = true →
  ancestor_chain w this l →
  Forall (λ c, no_registration a (container c w)) l →
  length l ≤ fuel →
  resolveInternal (S (S fuel)) this (TAbstraction a) stk o w = (Ok (VArray []), w).
Proof.
  intros Hm Hchain Hall Hlen.
  assert (Forall (λ c, nothing_to_collect a (container c w)) l) as Hnone.
  { eapply Forall_impl; [done|]. intros c. apply no_registration_nothing_to_collect. }
  rewrite resolveInternal_abstraction, Hm, andb_false_r.
  cbn [tryResolveFromCurrentContainer]. rewrite !bind_gets, Hm.
  by rewrite (bind_Ok _ _ _ _ _ (resolveMultiple_nothing a w l this fuel stk Hchain Hnone Hlen)).
Qed.

Lemma resolveDeps_absent fuel this w l deps :
  ancestor_chain w this l →
  Forall (λ dep, ∃ a o, splitDependency dep = (TAbstraction a, o) ∧
                        optional o = true ∧
                        Forall (λ c, no_registration a (container c w)) l) deps →
  length l + 2 ≤ fuel →
  resolveDeps (resolveInternal fuel this) ∅ deps w = (Ok (map absent deps), w).
Proof.
  intros Hchain Hall Hfuel. induction Hall as [|dep deps Hdep _ IH]; [done|].
  destruct Hdep as (a & o & Ha & Hopt & Hno).
  unfold resolveDeps in *. cbn [mapM map]. unfold bind at 1.
  unfold absent at 1. rewrite Ha. cbn [snd].
  destruct (multiple o) eqn:Hm.
  - destruct fuel as [|[|fuel]]; [lia..|].
    rewrite (resolveInternal_collects_nothing a ∅ o w l) by (done || lia).
    by rewrite (bind_Ok _ _ _ _ _ IH).
  - rewrite (resolveInternal_unregistered a ∅ o w l) by (done || lia).
    rewrite Hopt. by rewrite (bind_Ok _ _ _ _ _ IH).
Qed.

(** X17.  [resolveWithDependencies] with dependencies that are all optional,
    on contracts that nobody has registered, still builds the class: the
    constructor receives [undefined] for each dependency that asks for one
    object and the empty list for each that asks for all of them
    ([multiple]). *)
Theorem optional_dependencies_may_be_absent fuel this impl deps w l :
  ancestor_chain w this l →
  Forall (λ dep, ∃ a o, splitDependency dep = (TAbstraction a, o) ∧
                        optional o = true ∧
                        Forall (λ c, no_registration a (container c w)) l) deps →
  length l + 2 ≤ fuel →
  resolveWithDependencies fuel this impl deps w =
  (Ok (VObject (next_object w) impl (map absent deps)), allocated w).
Proof.
  intros Hchain Hall Hfuel. unfold resolveWithDependencies.
  by rewrite (bind_Ok _ _ _ _ _ (resolveDeps_absent fuel this w l deps Hchain Hall Hfuel)).
Qed.

(** X18.  One dependency that asks for a single object (not [multiple]), is
    not optional, and that nobody has registered makes
    [resolveWithDependencies] fail with that dependency's error, once the
    dependencies before it are resolved; the class is not built. *)
Theorem missing_dependency_fails fuel this impl before dep after a o w l args w0 :
  ancestor_chain w this l →
  Forall (λ c, no_registration a (container c w)) l →
  splitDependency dep = (TAbstraction a, o) →
  multiple o = false →
  optional o = false →
  length l < fuel →
  resolveDeps (resolveInternal fuel this) ∅ before w = (Ok args, w0) →
  resolveWithDependencies fuel this impl (before ++ dep :: after) w =
  (Throw ("No registration found for " +:+ toString a), w0).
Proof.
  intros Hchain Hno Ha Hm Hopt Hfuel Hbefore.
  assert (same_tables w w0) as Hsame.
  { pose proof (preserves_resolveDeps same_tables (resolveInternal fuel this) ∅ before
                  (λ t s o, resolveInternal_same_tables fuel this t s o) w) as Hs.
    by rewrite Hbefore in Hs. }
  unfold resolveWithDependencies, resolveDeps. unfold bind at 1.
  rewrite mapM_app_cons. unfold resolveDeps in Hbefore.
  rewrite (bind_Ok _ _ _ _ _ Hbefore). unfold bind at 1. rewrite Ha.
  rewrite (resolveInternal_unregistered a ∅ o w0 l); [by rewrite Hopt|done..| | |done].
  - by apply (ancestor_chain_same_tables w).
  - eapply Forall_impl; [done|]. intros c Hc.
    by apply (no_registration_same_tables a w w0).
Qed.

(** X19.  A class listed as a dependency directly, not through a contract,
    needs dependency metadata, and the [optional] flag does not excuse its
    absence; when it resolves, the result is a new object of that very class,
    built by the container asked with one argument per declared dependency:
    no registration, cache or decorator comes into it. *)
Theorem plain_class_dependency fuel this k stk o w :
  (md_dependencies (class_metadata k w) = None →
   resolveInternal (S (S fuel)) this (TConstructor k) stk o w =
   (Throw (name k +:+
           " does not have dependency metadata. Use createDependency to define dependencies."),
    w)) ∧
  (∀ v w',
     resolveInternal fuel this (TConstructor k) stk o w = (Ok v, w') →
     ∃ id args deps,
       md_dependencies (class_metadata k w) = Some deps ∧
       v = VObject id k args ∧ length args = length deps ∧
       created_between w w' v).
Proof.
  split.
  - intros Hnone. cbn [resolveInternal resolveDependencyOnly]. by rewrite bind_gets, Hnone.
  - intros v w' Hrun. destruct fuel as [|[|fuel]]; [done..|].
    cbn [resolveInternal resolveDependencyOnly] in Hrun. rewrite bind_gets in Hrun.
    destruct (md_dependencies (class_metadata k w)) as [deps|]; [|done].
    apply bind_Ok_inv in Hrun as (args & w1 & Hdeps & Hbuilt).
    exists (next_object w1), args, deps. split; [done|].
    assert (v = VObject (next_object w1) k args) as -> by (by injection Hbuilt as <- _).
    split; [done|]. split; [by apply resolveDeps_length in Hdeps|].
    apply construct_created in Hbuilt.
    eapply created_between_wider; [|reflexivity|done].
    eapply grows_run; [apply resolveDeps_grows | done].
Qed.

(** X20.  Cycles through classes listed directly as dependencies are not
    detected.  A class whose first declared dependency is the class itself
    never resolves and never gets the circular-dependency error: the
    recursion does not end, whatever the depth allowed. *)
Theorem plain_class_cycle_is_not_detected k w dep o' after :
  md_dependencies (class_metadata k w) = Some (dep :: after) →
  splitDependency dep = (TConstructor k, o') →
  ∀ fuel this stk o,
    resolveInternal fuel this (TConstructor k) stk o w = (OutOfFuel, w).
Proof.
  intros Hdeps Hdep fuel. induction fuel as [fuel IH] using lt_wf_ind.
  intros this stk o. destruct fuel as [|[|fuel]]; [done..|].
  cbn [resolveInternal resolveDependencyOnly]. rewrite bind_gets, Hdeps.
  unfold resolveDeps. cbn [mapM]. rewrite Hdep.
  unfold bind at 1. unfold bind at 1. by rewrite IH by lia.
Qed.

(** * Decorators registered later, and decorator cycles *)

Lemma last_is_Some {A} (l : list A) : l ≠ [] → ∃ x, last l = Some x.
Proof.
  intros Hl. destruct (last l) as [x|] eqn:Hlast; [by eexists|].
  by apply last_None in Hlast.
Qed.

(** What the decorator loop returns is an object of the last decorator's
    class, holding the object made before it as its last argument. *)
Lemma decorator_loop_last resolve stk ds d base w v w1 :
  forM (ds ++ [d]) (decorateStep resolve stk) base w = (Ok v, w1) →
  ∃ id args inner, v = VObject id (decoratorClass d) (args ++ [inner]) ∧
                   length args = length (decoratorDependencies d).
Proof.
  rewrite forM_snoc. intros H.
  apply bind_Ok_inv in H as (inner & w2 & _ & H).
  unfold decorateStep in H.
  apply bind_Ok_inv in H as (args & w3 & Hdeps & H).
  unfold construct in H. injection H as <- _.
  eexists _, args, inner. split; [done|]. by apply resolveDeps_length in Hdeps.
Qed.

Lemma applyDecorators_last fuel this a base stk w ds d v w1 :
  default [] (decorators (container this w) !! token a) = ds ++ [d] →
  applyDecorators fuel this a base stk w = (Ok v, w1) →
  ∃ id args inner, v = VObject id (decoratorClass d) (args ++ [inner]) ∧
                   length args = length (decoratorDependencies d).
Proof.
  intros Hds. destruct fuel as [|fuel]; [done|]. cbn [applyDecorators].
  rewrite bind_gets, Hds. apply decorator_loop_last.
Qed.

Lemma applyDecorators_last_same fuel this a base stk w w0 ds d v w1 :
  same_tables w w0 →
  default [] (decorators (container this w) !! token a) = ds ++ [d] →
  applyDecorators fuel this a base stk w0 = (Ok v, w1) →
  is_defined v = true ∧
  ∃ id args inner, v = VObject id (decoratorClass d) (args ++ [inner]) ∧
                   length args = length (decoratorDependencies d).
Proof.
  intros Hsame Hds Hrun. rewrite (same_decorators w w0 Hsame) in Hds.
  destruct (applyDecorators_last _ _ _ _ _ _ _ _ _ _ Hds Hrun) as (id & args & inner & -> & Hlen).
  split; [done|]. by eexists _, _, _.
Qed.

(** Where a container decorates what it resolves and has decorators for the
    contract, [resolve] returns an object of the last decorator's class. *)
Lemma resolve_decorated fuel this a w ds d v w1 :
  decorates_anew a (container this w) →
  default [] (decorators (container this w) !! token a) = ds ++ [d] →
  resolve fuel this a w = (Ok v, w1) →
  ∃ id args inner, v = VObject id (decoratorClass d) (args ++ [inner]) ∧
                   length args = length (decoratorDependencies d).
Proof.
  intros [Hc Hwin] Hds Hrun. unfold resolve in Hrun.
  destruct fuel as [|[|fuel]]; [done| |].
  { rewrite resolveInternal_abstraction in Hrun. by simpl in Hrun. }
  rewrite resolveInternal_abstraction in Hrun.
  change (has ∅ (token a) && negb (multiple noOptions)) with false in Hrun.
  rewrite tryResolve_single in Hrun by done.
  unfold localSingle in Hrun. rewrite bind_gets, Hc in Hrun.
  destruct (last (default [] (instanceRegistrations (container this w) !! token a)))
    as [newest|] eqn:Hi.
  { destruct (applyDecorators fuel this a (instance newest) ∅ w) as [[dec| |] w'] eqn:Hdec;
      [|by rewrite (bind_Throw _ _ _ _ _ Hdec) in Hrun
       |by rewrite (bind_OutOfFuel _ _ _ _ Hdec) in Hrun].
    rewrite (bind_Ok _ _ _ _ _ Hdec) in Hrun. cbn [ret] in Hrun.
    destruct (applyDecorators_last_same _ _ _ _ _ w w _ _ _ _ (reflexivity _) Hds Hdec)
      as [Hdef Hshape].
    rewrite Hdef in Hrun. by injection Hrun as <- _. }
  apply last_None in Hi.
  destruct Hwin as [Hinst|[(reg & Hr & Hscope)|[Hr Hf]]]; [done| |].
  - rewrite Hr in Hrun.
    destruct (resolveRegistration fuel this a reg ∅ w) as [[[dec stk']| |] w'] eqn:Hreg;
      cbv beta iota in Hrun; [|done..].
    apply resolveRegistration_truthy in Hreg as Htruthy.
    rewrite (truthy_is_defined _ Htruthy) in Hrun. injection Hrun as <- <-.
    destruct fuel as [|fuel]; [done|].
    cbn [resolveRegistration] in Hreg. rewrite bind_gets in Hreg.
    rewrite decide_False in Hreg by (by rewrite Hscope).
    apply bind_Ok_inv in Hreg as (deps & w2 & Hdeps & H).
    apply bind_Ok_inv in H as (built & w3 & Hbuilt & H).
    apply bind_Ok_inv in H as (decorated & w4 & Hdec & H).
    apply bind_Ok_inv in H as ([] & w5 & _ & [= <- _ _]).
    unfold construct in Hbuilt. injection Hbuilt as <- <-.
    assert (same_tables w (allocated w2)) as Hsame.
    { etrans; [|apply same_tables_allocated].
      pose proof (preserves_resolveDeps same_tables (resolveInternal fuel this)
                    (<[token a:=true]> ∅) (dependencies reg)
                    (λ t s o, resolveInternal_same_tables fuel this t s o) w) as Hs.
      by rewrite Hdeps in Hs. }
    by destruct (applyDecorators_last_same _ _ _ _ _ _ _ _ _ _ _ Hsame Hds Hdec).
  - rewrite Hr in Hrun. cbn [last] in Hrun.
    destruct (last_is_Some _ Hf) as [f Hlast]. rewrite Hlast in Hrun.
    unfold call_factory at 1 in Hrun. unfold bind at 1 in Hrun.
    destruct (applyDecorators fuel this a (f (next_object w)) ∅ (allocated w))
      as [[dec| |] w'] eqn:Hdec;
      [|by rewrite (bind_Throw _ _ _ _ _ Hdec) in Hrun
       |by rewrite (bind_OutOfFuel _ _ _ _ Hdec) in Hrun].
    rewrite (bind_Ok _ _ _ _ _ Hdec) in Hrun. cbn [ret] in Hrun.
    destruct (applyDecorators_last_same _ _ _ _ _ w _ _ _ _ _
                (same_tables_allocated w) Hds Hdec) as [Hdef Hshape].
    rewrite Hdef in Hrun. by injection Hrun as <- _.
Qed.

(** X21.  [registerDecorator] then [resolve]: where the container serves the
    contract from an instance, a Transient provider or a factory, a
    successful [resolve] returns an object of the decorator registered last,
    built from its declared dependencies followed by the object it wraps. *)
Theorem registerDecorator_then_resolve this d a w fuel v w1 :
  md_isDecorator (class_metadata d w) = true →
  md_abstraction (class_metadata d w) = Some a →
  decorates_anew a (container this w) →
  resolve fuel this a (exec (registerDecorator this d) w) = (Ok v, w1) →
  ∃ id args inner,
    v = VObject id d (args ++ [inner]) ∧
    length args = length (default [] (md_dependencies (class_metadata d w))).
Proof.
  intros Hdec Ha Hwin Hrun.
  set (w' := exec (registerDecorator this d) w) in *.
  set (dreg := {| decoratorClass := d;
                  decoratorDependencies :=
                    default [] (md_dependencies (class_metadata d w)) |}).
  assert (container this w' =
          let c := container this w in
          {| registrations := registrations c;
             decorators :=
               <[token a := default [] (decorators c !! token a) ++ [dreg]]> (decorators c);
             instances := instances c; factories := factories c;
             instanceRegistrations := instanceRegistrations c;
             composites := composites c; parent := parent c |}) as Hw'.
  { unfold w', exec, registerDecorator. rewrite bind_gets, Hdec, Ha. cbn [negb].
    rewrite bind_gets. simpl. by rewrite container_set_container. }
  apply (resolve_decorated fuel this a w'
           (default [] (decorators (container this w) !! token a)) dreg v w1); [| |done].
  - unfold decorates_anew. by rewrite Hw'.
  - rewrite Hw'. cbn [decorators]. by rewrite lookup_insert_eq.
Qed.

Lemma bind_never {A B} (m : M A) (k : A → M B) w :
  (m w).1 = OutOfFuel → (bind m k w).1 = OutOfFuel.
Proof. unfold bind. by destruct (m w) as [[?| |] ?]. Qed.

Lemma served_without_stack_same_tables a this w w' :
  same_tables w w' →
  served_without_stack a (container this w) → served_without_stack a (container this w').
Proof.
  intros Hs. unfold served_without_stack.
  by rewrite <- (same_composites w w' Hs), <- (same_instanceRegistrations w w' Hs),
             <- (same_registrations w w' Hs), <- (same_factories w w' Hs).
Qed.

Lemma decorator_cycle_loops a this w d ds dep after o :
  served_without_stack a (container this w) →
  default [] (decorators (container this w) !! token a) = d :: ds →
  decoratorDependencies d = dep :: after →
  asks_for dep a o →
  ∀ fuel w' stk o',
    same_tables w w' → has stk (token a) = false → multiple o' = false →
    (resolveInternal fuel this (TAbstraction a) stk o' w').1 = OutOfFuel.
Proof.
  intros Hserved Hds Hdeps [Hdep Hm] fuel.
  induction fuel as [fuel IH] using lt_wf_ind.
  intros w' stk o' Hsame Hstk Hm'.
  assert (∀ f base w0, f < fuel → same_tables w w0 →
            (applyDecorators f this a base stk w0).1 = OutOfFuel) as Hloop.
  { intros f base w0 Hf Hsame0. destruct f as [|f]; [done|].
    cbn [applyDecorators].
    rewrite bind_gets, <- (same_decorators w w0 Hsame0), Hds. cbn [forM].
    apply bind_never. unfold decorateStep. apply bind_never.
    rewrite Hdeps. unfold resolveDeps. cbn [mapM]. apply bind_never.
    rewrite Hdep. apply IH; [lia|done..]. }
  destruct fuel as [|[|fuel]]; [done| |].
  { rewrite resolveInternal_abstraction. by rewrite Hstk. }
  rewrite resolveInternal_abstraction, Hstk, andb_false_l.
  rewrite tryResolve_single by done.
  destruct (served_without_stack_same_tables a this w w' Hsame Hserved) as [Hc Hwin].
  assert ((localSingle fuel this a stk w').1 = OutOfFuel) as Hlocal.
  { unfold localSingle. rewrite bind_gets, Hc.
    destruct Hwin as [Hi|[Hr Hf]].
    - destruct (last_is_Some _ Hi) as [newest ->].
      apply bind_never. apply Hloop; [lia|done].
    - destruct (last _) as [newest|].
      + apply bind_never. apply Hloop; [lia|done].
      + rewrite Hr. cbn [last].
        destruct (last_is_Some _ Hf) as [f ->].
        unfold call_factory at 1. unfold bind at 1.
        apply bind_never. apply Hloop; [lia|].
        etrans; [done|]. apply same_tables_allocated. }
  by destruct (localSingle fuel this a stk w') as [[[??]| |] ?].
Qed.

(** X22.  The cycle check does not cover decorators of a contract that is
    served by an instance or a factory.  If the first decorator lists the
    contract itself among its dependencies, first, [resolve] neither returns
    nor reports a circular dependency: the recursion does not end, whatever
    the depth allowed. *)
Theorem decorator_cycle_is_not_detected a this w d ds dep after o :
  served_without_stack a (container this w) →
  default [] (decorators (container this w) !! token a) = d :: ds →
  decoratorDependencies d = dep :: after →
  asks_for dep a o →
  ∀ fuel, (resolve fuel this a w).1 = OutOfFuel.
Proof.
  intros Hserved Hds Hdeps Hdep fuel. unfold resolve.
  by apply (decorator_cycle_loops a this w d ds dep after o).
Qed.

Lemma registerDecorator_only_decorators c d w c' :
  let w' := exec (registerDecorator c d) w in
  registrations (container c' w') = registrations (container c' w) ∧
  instanceRegistrations (container c' w') = instanceRegistrations (container c' w) ∧
  composites (container c' w') = composites (container c' w) ∧
  instances (container c' w') = instances (container c' w).
Proof.
  unfold exec, registerDecorator. rewrite bind_gets.
  destruct (md_isDecorator _); [|done]. cbn [negb].
  destruct (md_abstraction _) as [a|]; [|done].
  rewrite bind_gets. simpl.
  destruct (decide (c' = c)) as [->|Hne].
  - by rewrite container_set_container.
  - by rewrite container_set_container_ne.
Qed.

(** X23.  A decorator registered after a singleton has been built does not
    reach it: [resolve] keeps returning the object built before, without the
    new decorator around it. *)
Theorem late_decorator_misses_singleton a w this reg fuel v w1 c d :
  composites (container this w) !! token a = None →
  default [] (instanceRegistrations (container this w) !! token a) = [] →
  last (default [] (registrations (container this w) !! token a)) = Some reg →
  scope reg = Singleton →
  resolve fuel this a w = (Ok v, w1) →
  ∀ fuel', 3 ≤ fuel' →
    resolve fuel' this a (exec (registerDecorator c d) w1) =
    (Ok v, exec (registerDecorator c d) w1).
Proof.
  intros Hc Hi Hr Hscope Hrun.
  assert (Hsame : same_tables w w1).
  { pose proof (resolveInternal_same_tables fuel this (TAbstraction a) ∅ noOptions w) as H.
    unfold resolve in Hrun. by rewrite Hrun in H. }
  destruct (resolve_provider _ _ _ _ _ _ _ Hc Hi Hr Hrun) as (f0 & stk' & _ & Hreg).
  apply resolveRegistration_singleton_cached in Hreg as [Hcache Htruthy]; [|done].
  destruct (registerDecorator_only_decorators c d w1 this) as (Hr' & Hi' & Hc' & Hcache').
  intros [|[|[|fuel']]] Hfuel; [lia..|]. clear Hfuel.
  unfold resolve. rewrite resolveInternal_abstraction.
  change (has ∅ (token a) && negb (multiple noOptions)) with false.
  rewrite tryResolve_single by done.
  rewrite (localSingle_provider _ _ _ _ _ reg).
  - rewrite (resolveRegistration_cache_hit _ _ _ _ _ _ v); [|done| |done].
    + by rewrite (truthy_is_defined _ Htruthy).
    + by rewrite Hcache'.
  - by rewrite Hc', <- (same_composites w w1 Hsame).
  - by rewrite Hi', <- (same_instanceRegistrations w w1 Hsame).
  - by rewrite Hr', <- (same_registrations w w1 Hsame).
Qed.

(** X24.  A new container on its own, [new Container()], resolves nothing:
    [resolve] throws the "No registration found" error for every contract
    and [resolveAll] returns the empty list, both leaving the world alone. *)
Theorem new_container_resolves_nothing w a fuel :
  let this := next_container w in
  let w' := exec (createContainer None) w in
  (createContainer None w).1 = Ok this ∧
  resolve (S (S fuel)) this a w' =
    (Throw ("No registration found for " +:+ toString a), w') ∧
  resolveAll (S fuel) this a w' = (Ok [], w').
Proof.
  intros this w'.
  assert (container this w' = newContainer) as Hnew.
  { unfold container, this, w', exec. simpl. apply lookup_total_insert_eq. }
  assert (ancestor_chain w' this [this]) as Hchain.
  { apply chain_root. by rewrite Hnew. }
  split; [done|]. split.
  - unfold resolve.
    rewrite (resolveInternal_unregistered a ∅ noOptions w' [this]); [done..| |simpl; lia].
    apply Forall_cons_2; [|apply Forall_nil_2]. by rewrite Hnew.
  - unfold resolveAll.
    assert (Forall (λ c, nothing_to_collect a (container c w')) [this]) as Hnone.
    { apply Forall_cons_2; [|apply Forall_nil_2]. by rewrite Hnew. }
    assert (length [this] ≤ S fuel) as Hfuel by (simpl; lia).
    by rewrite (bind_Ok _ _ _ _ _
                  (resolveMultiple_nothing a w' [this] this (S fuel) ∅ Hchain Hnone Hfuel)).
Qed.

(** * Contracts *)

Lemma newAbstraction_run names : ∀ w,
  ∃ made w',
    mapM newAbstraction names w = (Ok made, w') ∧
    (next_symbol w ≤ next_symbol w')%positive ∧
    map (λ a, description (token a)) made = names ∧
    Forall (λ a, (next_symbol w ≤ sym_id (token a) < next_symbol w')%positive) made ∧
    NoDup (map token made).
Proof.
  induction names as [|n names IH]; intros w.
  - exists [], w. split_and!; [done|lia|done|constructor|constructor].
  - set (w1 := exec (newAbstraction n) w).
    destruct (IH w1) as (made & w' & Hrun & Hle & Hnames & Hrange & Hnodup).
    assert (next_symbol w1 = Pos.succ (next_symbol w)) as Hnext by done.
    exists ({| token := Symbol (next_symbol w) n |} :: made), w'.
    split_and!.
    + cbn [mapM]. unfold bind at 1. cbn [newAbstraction]. fold w1.
      by rewrite (bind_Ok _ _ _ _ _ Hrun).
    + lia.
    + simpl. by rewrite Hnames.
    + constructor; [simpl; lia|].
      eapply Forall_impl; [done|]. intros a Ha. simpl in Ha. lia.
    + simpl. constructor; [|done].
      intros Hin. apply list_elem_of_fmap in Hin as (a & Ha & Hin).
      rewrite Forall_forall in Hrange. specialize (Hrange a Hin). simpl in Hrange.
      rewrite <- Ha in Hrange. simpl in Hrange. lia.
Qed.

(** X25.  Contracts are told apart by identity, not by name.  Creating
    contracts for any list of names never fails; the contracts carry the
    names, in order, and their tokens differ from one another, equal names
    or not, and from every token handed out before. *)
Theorem abstractions_are_unique names w :
  ∃ made,
    (mapM newAbstraction names w).1 = Ok made ∧
    map (λ a, description (token a)) made = names ∧
    NoDup (map token made) ∧
    Forall (λ a, (next_symbol w ≤ sym_id (token a))%positive) made.
Proof.
  destruct (newAbstraction_run names w) as (made & w' & Hrun & _ & Hnames & Hrange & Hnodup).
  exists made. rewrite Hrun. split_and!; [done..|].
  eapply Forall_impl; [done|]. intros a Ha. simpl in Ha. lia.
Qed.

(** * The theorems at work *)

Import Scenario.

Ltac run := vm_compute; reflexivity.

Lemma C1_singleton_identity_witness :
  (∀ fuel', 3 ≤ fuel' →
     resolve fuel' root Logger singleton_on_root_resolved =
     (Ok (VObject 0 ConsoleLogger []), singleton_on_root_resolved)) ∧
  (∀ fuel', 3 + 2 ≤ fuel' →
     resolve fuel' grandchild Logger singleton_on_root_resolved =
     (Ok (VObject 0 ConsoleLogger []), singleton_on_root_resolved)) ∧
  (∀ fuel', 4 + 2 ≤ fuel' →
     resolve fuel' grandchild Logger singleton_on_root =
     (Ok (VObject 0 ConsoleLogger []), singleton_on_root_resolved)).
Proof.
  apply (C1_singleton_identity Logger singleton_on_root root
           (singleton_record ConsoleLogger) 4 (VObject 0 ConsoleLogger [])
           singleton_on_root_resolved grandchild 2); [run | run | run | run | | run].
  apply (unshadowed_below _ _ grandchild child); [split_and!; run | run |].
  apply (unshadowed_below _ _ child root); [split_and!; run | run |].
  apply unshadowed_here.
Defined.

(** C1 as worded fails twice: a Singleton provider followed by a transient
    one on the same container yields a new object per resolution; and a
    grandchild with no registration of its own receives the singleton of the
    container in between, not the root's. *)
Lemma C1_counterexample :
  (default [] (registrations (container root singleton_then_transient) !! token Logger)
     !! 0 = Some (singleton_record ConsoleLogger) ∧
   ∃ w1 w2,
     resolve 4 root Logger singleton_then_transient = (Ok (VObject 0 FileLogger []), w1) ∧
     resolve 4 root Logger w1 = (Ok (VObject 1 FileLogger []), w2) ∧
     VObject 0 FileLogger [] ≠ VObject 1 FileLogger []) ∧
  (last (default [] (registrations (container root singleton_shadowed) !! token Logger))
     = Some (singleton_record ConsoleLogger) ∧
   parent (container grandchild singleton_shadowed) = Some child ∧
   parent (container child singleton_shadowed) = Some root ∧
   no_registration Logger (container grandchild singleton_shadowed) ∧
   ∃ w1 w2,
     resolve 4 root Logger singleton_shadowed = (Ok (VObject 0 ConsoleLogger []), w1) ∧
     resolve 5 grandchild Logger w1 = (Ok (VObject 1 ConsoleLogger []), w2) ∧
     VObject 0 ConsoleLogger [] ≠ VObject 1 ConsoleLogger []).
Proof.
  split.
  - split; [run|].
    exists (exec (resolve 4 root Logger) singleton_then_transient).
    exists (exec (let* _ := resolve 4 root Logger in resolve 4 root Logger)
                 singleton_then_transient).
    split; [run|]. split; [run | discriminate].
  - split; [run|]. split; [run|]. split; [run|]. split; [split_and!; run|].
    exists (exec (resolve 4 root Logger) singleton_shadowed).
    exists (exec (let* _ := resolve 4 root Logger in resolve 5 grandchild Logger)
                 singleton_shadowed).
    split; [run|]. split; [run | discriminate].
Qed.


(** C3, at its failing input: the singleton cached for one contract is
    handed out for another contract that merely shares its label. *)
Theorem C3_cache_key_collision :
  token ServiceA ≠ token ServiceB ∧
  instanceKey ServiceA (singleton_record ServiceImplA) =
    instanceKey ServiceB (singleton_record ServiceImplB) ∧
  (resolve 4 root ServiceB same_label).1 = Ok (VObject 0 ServiceImplB []) ∧
  resolve 4 root ServiceA same_label =
    (Ok (VObject 0 ServiceImplA []), same_label_resolved) ∧
  resolve 4 root ServiceB same_label_resolved =
    (Ok (VObject 0 ServiceImplA []), same_label_resolved).
Proof.
  split; [discriminate|]. split; [run|]. split; [run|]. split; run.
Qed.


Lemma C6_composite_undecorated_witness :
  resolveInternal 10 root (TAbstraction Logger) ∅ noOptions composite_world =
  (Ok (VObject 4 CompositeLogger composite_args), allocated composite_deps_resolved).
Proof.
  rewrite (C6_composite_undecorated 8 root Logger ∅ noOptions composite_world
             {| implementation := CompositeLogger; dependencies := [allLoggers];
                scope := Transient |}
             composite_args composite_deps_resolved) by run.
  run.
Defined.

Lemma C7_circular_dependency_witness :
  resolveInternal 5 root (TAbstraction Logger) {[token Logger := true]} noOptions
                  composite_world =
    (Throw "Circular dependency detected for Logger", composite_world) ∧
  (resolveInternal 10 root (TAbstraction Logger) {[token Logger := true]}
                   {| multiple := true; optional := false |} composite_world).1 =
    Ok (VArray [VObject 1 LoggerDecorator [VObject 0 ConsoleLogger []];
                VObject 3 LoggerDecorator [VObject 2 FileLogger []]]).
Proof.
  split.
  - rewrite (C7_circular_dependency 3 root Logger {[token Logger := true]} noOptions
               composite_world) by run.
    run.
  - rewrite (C7_circular_dependency 8 root Logger {[token Logger := true]}
               {| multiple := true; optional := false |} composite_world) by run.
    run.
Defined.

Lemma C8_no_registration_found_witness :
  resolveInternal 4 grandchild (TAbstraction Formatter) ∅
                  {| multiple := false; optional := true |} singleton_on_root =
    (Ok VUndefined, singleton_on_root) ∧
  resolve 4 grandchild Formatter singleton_on_root =
    (Throw "No registration found for Formatter", singleton_on_root).
Proof.
  assert (Hchain : ancestor_chain singleton_on_root grandchild [grandchild; child; root]).
  { apply (chain_child _ grandchild child); [run|].
    apply (chain_child _ child root); [run|].
    apply chain_root. run. }
  assert (Hnone : Forall (λ c, no_registration Formatter (container c singleton_on_root))
                         [grandchild; child; root]).
  { repeat apply Forall_cons_2; [split_and!; run.. | apply Forall_nil_2]. }
  assert (Hfuel : length [grandchild; child; root] < 4) by (simpl; lia).
  destruct (C8_no_registration_found Formatter ∅ {| multiple := false; optional := true |}
              singleton_on_root [grandchild; child; root] grandchild 4
              eq_refl Hchain Hnone Hfuel) as [Hopt Hthrow].
  split; [rewrite Hopt | rewrite Hthrow]; run.
Defined.

(** C8 as worded fails when the contract is already on the resolution path.
    The child's logger needs a formatter, which only the root provides; the
    root's formatter would like a logger, optionally, and neither the root
    nor any ancestor of it has one.  The optional request made on the root
    does not come back as absent: it throws, and so does the whole
    [resolve] on the child. *)
Lemma C8_counterexample :
  parent (container root Variations.optional_back_edge) = None ∧
  no_registration Logger (container root Variations.optional_back_edge) ∧
  resolveInternal 4 root (TAbstraction Logger)
      (<[token Formatter := true]> {[token Logger := true]})
      {| multiple := false; optional := true |} Variations.optional_back_edge =
    (Throw "Circular dependency detected for Logger", Variations.optional_back_edge) ∧
  (resolve 10 child Logger Variations.optional_back_edge).1 =
    Throw "Circular dependency detected for Logger".
Proof.
  split; [run|]. split; [split_and!; run|]. split; run.
Qed.

Lemma C9_collect_nothing_witness :
  resolveAll 3 grandchild Formatter singleton_on_root = (Ok [], singleton_on_root) ∧
  ∀ stk o, multiple o = true →
    resolveInternal 5 grandchild (TAbstraction Formatter) stk o singleton_on_root =
    (Ok (VArray []), singleton_on_root).
Proof.
  apply (C9_collect_nothing Formatter singleton_on_root [grandchild; child; root]
           grandchild 3); [| |simpl; lia].
  - apply (chain_child _ grandchild child); [run|].
    apply (chain_child _ child root); [run|].
    apply chain_root. run.
  - repeat apply Forall_cons_2; [split_and!; run.. | apply Forall_nil_2].
Defined.

(** The child holds an instance record whose value is [undefined]: the
    request is answered by the root's provider. *)
Lemma C10_undefined_is_no_match_witness :
  (resolveInternal 6 child (TAbstraction Logger) ∅ noOptions undefined_instance).1 =
  Ok (VObject 0 ConsoleLogger []).
Proof.
  rewrite (C10_undefined_is_no_match 4 child Logger ∅ noOptions undefined_instance
             ∅ undefined_instance); [run | run | run |].
  apply (undefined_instance_local 3 child Logger ∅ noOptions undefined_instance
           {| instance := VUndefined |}); run.
Defined.

(** The four contracts of the scenarios are what four calls of
    [new Abstraction] return; the two services share a label and nothing
    else. *)
Example contracts_created :
  (contracts emptyWorld).1 = Ok [Logger; Formatter; ServiceA; ServiceB].
Proof. run. Qed.

(** Decorators registered as LoggerDecorator, then MetricsDecorator: the
    resolved logger is a MetricsDecorator around a LoggerDecorator around
    the ConsoleLogger. *)
Example decorators_nest :
  (resolve 8 root Logger decorated_world).1 =
  Ok (VObject 3 MetricsDecorator
        [VObject 2 UpperCaseFormatter [];
         VObject 1 LoggerDecorator [VObject 0 ConsoleLogger []]]).
Proof. run. Qed.

(** Decorators stay with the container that holds them: a decorator
    registered on the child does not wrap what the root's provider makes,
    and a decorator registered on the root does not wrap the child's
    instance. *)
Example decorators_are_local :
  (resolve 6 child Logger
     (exec (let* _ := register root ConsoleLogger in
            registerDecorator child LoggerDecorator) family)).1 =
    Ok (VObject 0 ConsoleLogger []) ∧
  (resolve 6 child Logger
     (exec (let* _ := registerInstance child Logger (VString "ready-made") in
            registerDecorator root LoggerDecorator) family)).1 =
    Ok (VString "ready-made").
Proof. split; run. Qed.

(** A provider that needs its own contract. *)
Example self_dependency_is_circular :
  (resolve 10 root Logger
     (exec (let* _ := createImplementation Logger FileLogger
                        [DepBare (TAbstraction Logger)] in
            register root FileLogger) family)).1 =
  Throw "Circular dependency detected for Logger".
Proof. run. Qed.

Import Variations.

Lemma resolution_touches_chain_only_witness :
  (∀ a, container child (exec (resolve 4 root a) singleton_shadowed) =
        container child singleton_shadowed) ∧
  (∀ a, container child (exec (resolveAll 4 root a) singleton_shadowed) =
        container child singleton_shadowed) ∧
  (∀ impl deps,
     container child (exec (resolveWithDependencies 4 root impl deps) singleton_shadowed) =
     container child singleton_shadowed).
Proof.
  assert (Hchain : ancestor_chain singleton_shadowed root [root]).
  { apply chain_root. run. }
  assert (Hout : child ∉ [root]).
  { intros H. apply list_elem_of_singleton in H. discriminate H. }
  exact (resolution_touches_chain_only 4 root singleton_shadowed [root] child Hchain Hout).
Defined.

Lemma resolution_reads_chain_only_witness :
  (∀ a, alike (agree_on (.∈ [root])) (resolve 4 root a)
              singleton_on_root
              (exec (perform child (RegisterProvider FileLogger)) singleton_on_root)) ∧
  (∀ a, alike (agree_on (.∈ [root])) (resolveAll 4 root a)
              singleton_on_root
              (exec (perform child (RegisterProvider FileLogger)) singleton_on_root)) ∧
  (∀ impl deps,
     alike (agree_on (.∈ [root])) (resolveWithDependencies 4 root impl deps)
           singleton_on_root
           (exec (perform child (RegisterProvider FileLogger)) singleton_on_root)).
Proof.
  assert (Hchain : ancestor_chain singleton_on_root root [root]).
  { apply chain_root. run. }
  assert (Hout : child ∉ [root]).
  { intros H. apply list_elem_of_singleton in H. discriminate H. }
  assert (Hagree : agree_on (.∈ [root]) singleton_on_root
                     (exec (perform child (RegisterProvider FileLogger)) singleton_on_root)).
  { apply (only_tables_of_agree_on child); [apply perform_only_tables | exact Hout]. }
  exact (resolution_reads_chain_only 4 root singleton_on_root
           (exec (perform child (RegisterProvider FileLogger)) singleton_on_root) [root]
           Hchain Hagree).
Defined.

Lemma registration_elsewhere_is_invisible_witness :
  (∀ a, (resolve 4 root a
           (exec (perform child (RegisterProvider FileLogger)) singleton_on_root)).1 =
        (resolve 4 root a singleton_on_root).1) ∧
  (∀ a, (resolveAll 4 root a
           (exec (perform child (RegisterProvider FileLogger)) singleton_on_root)).1 =
        (resolveAll 4 root a singleton_on_root).1) ∧
  (∀ impl deps,
     (resolveWithDependencies 4 root impl deps
        (exec (perform child (RegisterProvider FileLogger)) singleton_on_root)).1 =
     (resolveWithDependencies 4 root impl deps singleton_on_root).1).
Proof.
  assert (Hchain : ancestor_chain singleton_on_root root [root]).
  { apply chain_root. run. }
  assert (Hout : child ∉ [root]).
  { intros H. apply list_elem_of_singleton in H. discriminate H. }
  exact (registration_elsewhere_is_invisible 4 root child (RegisterProvider FileLogger)
           singleton_on_root [root] Hchain Hout).
Defined.

Lemma transient_resolves_anew_witness :
  ∃ id id', object_id (VObject 0 ConsoleLogger []) = Some id ∧
            object_id (VObject 1 ConsoleLogger []) = Some id' ∧ id < id'.
Proof.
  assert (Hwin : builds_anew Logger (container root transient_on_root)).
  { right. split; [run|]. split; [run|].
    exists {| implementation := ConsoleLogger; dependencies := []; scope := Transient |}.
    split; run. }
  assert (Hfirst : resolve 4 root Logger transient_on_root =
                   (Ok (VObject 0 ConsoleLogger []),
                    exec (resolve 4 root Logger) transient_on_root)) by run.
  assert (Hsecond : resolve 4 root Logger (exec (resolve 4 root Logger) transient_on_root) =
                    (Ok (VObject 1 ConsoleLogger []),
                     exec (resolve 4 root Logger)
                          (exec (resolve 4 root Logger) transient_on_root))) by run.
  exact (transient_resolves_anew Logger root transient_on_root 4 4
           (VObject 0 ConsoleLogger []) (VObject 1 ConsoleLogger [])
           (exec (resolve 4 root Logger) transient_on_root)
           (exec (resolve 4 root Logger) (exec (resolve 4 root Logger) transient_on_root))
           Hwin Hfirst Hsecond).
Defined.

Lemma providers_are_per_container_witness :
  ∃ id id', object_id (VObject 0 ConsoleLogger []) = Some id ∧
            object_id (VObject 1 ConsoleLogger []) = Some id' ∧ id < id'.
Proof.
  assert (Hroot : provider_pending Logger (container root singleton_shadowed)
                                   (singleton_record ConsoleLogger)).
  { split; [run|]. split; [run|]. split; run. }
  assert (Hchild : provider_pending Logger (container child singleton_shadowed)
                                    (singleton_record ConsoleLogger)).
  { split; [run|]. split; [run|]. split; run. }
  assert (Hchain : ancestor_chain singleton_shadowed root [root]).
  { apply chain_root. run. }
  assert (Hout : child ∉ [root]).
  { intros H. apply list_elem_of_singleton in H. discriminate H. }
  assert (Hfirst : resolve 4 root Logger singleton_shadowed =
                   (Ok (VObject 0 ConsoleLogger []),
                    exec (resolve 4 root Logger) singleton_shadowed)) by run.
  assert (Hsecond : resolve 4 child Logger (exec (resolve 4 root Logger) singleton_shadowed) =
                    (Ok (VObject 1 ConsoleLogger []),
                     exec (resolve 4 child Logger)
                          (exec (resolve 4 root Logger) singleton_shadowed))) by run.
  exact (providers_are_per_container Logger singleton_shadowed root child
           (singleton_record ConsoleLogger) (singleton_record ConsoleLogger) [root] 4 4
           (VObject 0 ConsoleLogger []) (VObject 1 ConsoleLogger [])
           (exec (resolve 4 root Logger) singleton_shadowed)
           (exec (resolve 4 child Logger) (exec (resolve 4 root Logger) singleton_shadowed))
           Hroot Hchild Hchain Hout Hfirst Hsecond).
Defined.

Lemma registerInstance_then_resolve_witness :
  resolve 3 root Logger
          (exec (registerInstance root Logger (VString "ready-made")) transient_on_root) =
  (Ok (VString "ready-made"),
   exec (registerInstance root Logger (VString "ready-made")) transient_on_root).
Proof.
  assert (Hc : composites (container root transient_on_root) !! token Logger = None) by run.
  assert (Hd : default [] (decorators (container root transient_on_root) !! token Logger) = [])
    by run.
  assert (Hv : is_defined (VString "ready-made") = true) by run.
  assert (Hfuel : 3 ≤ 3) by lia.
  exact (registerInstance_then_resolve root Logger (VString "ready-made") transient_on_root 3
           Hc Hd Hv Hfuel).
Defined.

Lemma register_then_resolve_witness :
  (∀ fuel v w1,
     resolve fuel root Logger (exec (register root FileLogger) transient_on_root) =
       (Ok v, w1) →
     ∃ id args, v = VObject id FileLogger args ∧
                length args =
                length (default [] (md_dependencies
                                      (class_metadata FileLogger transient_on_root)))) ∧
  (default [] (md_dependencies (class_metadata FileLogger transient_on_root)) = [] →
   ∀ fuel, 4 ≤ fuel →
     resolve fuel root Logger (exec (register root FileLogger) transient_on_root) =
     (Ok (VObject (next_object transient_on_root) FileLogger []),
      allocated (exec (register root FileLogger) transient_on_root))).
Proof.
  assert (H1 : md_isComposite (class_metadata FileLogger transient_on_root) = false) by run.
  assert (H2 : md_isDecorator (class_metadata FileLogger transient_on_root) = false) by run.
  assert (H3 : md_abstraction (class_metadata FileLogger transient_on_root) = Some Logger)
    by run.
  assert (H4 : composites (container root transient_on_root) !! token Logger = None) by run.
  assert (H5 : default [] (instanceRegistrations (container root transient_on_root)
                             !! token Logger) = []) by run.
  assert (H6 : default [] (decorators (container root transient_on_root) !! token Logger) = [])
    by run.
  exact (register_then_resolve root FileLogger Logger transient_on_root H1 H2 H3 H4 H5 H6).
Defined.

Lemma registerComposite_then_resolve_witness :
  ∃ id args, VObject 1 CompositeLogger [VArray [VObject 0 ConsoleLogger []]] =
             VObject id CompositeLogger args ∧
             length args =
             length (default [] (md_dependencies
                                   (class_metadata CompositeLogger transient_on_root))).
Proof.
  assert (H1 : md_isComposite (class_metadata CompositeLogger transient_on_root) = true)
    by run.
  assert (H2 : md_abstraction (class_metadata CompositeLogger transient_on_root) =
               Some Logger) by run.
  assert (H3 : resolve 10 root Logger
                 (exec (registerComposite root CompositeLogger) transient_on_root) =
               (Ok (VObject 1 CompositeLogger [VArray [VObject 0 ConsoleLogger []]]),
                exec (resolve 10 root Logger)
                     (exec (registerComposite root CompositeLogger) transient_on_root)))
    by run.
  exact (registerComposite_then_resolve root CompositeLogger Logger transient_on_root 10
           (VObject 1 CompositeLogger [VArray [VObject 0 ConsoleLogger []]])
           (exec (resolve 10 root Logger)
                 (exec (registerComposite root CompositeLogger) transient_on_root))
           H1 H2 H3).
Defined.

Lemma registerFactory_then_resolve_witness :
  resolve 3 root Logger
          (exec (registerFactory root Logger (λ n, VObject n FileLogger [])) family) =
  (Ok (VObject (next_object family) FileLogger []),
   allocated (exec (registerFactory root Logger (λ n, VObject n FileLogger [])) family)).
Proof.
  assert (H1 : composites (container root family) !! token Logger = None) by run.
  assert (H2 : default [] (instanceRegistrations (container root family) !! token Logger) = [])
    by run.
  assert (H3 : default [] (registrations (container root family) !! token Logger) = [])
    by run.
  assert (H4 : default [] (decorators (container root family) !! token Logger) = []) by run.
  assert (H5 : is_defined (VObject (next_object family) FileLogger []) = true) by run.
  assert (H6 : 3 ≤ 3) by lia.
  exact (registerFactory_then_resolve root Logger (λ n, VObject n FileLogger []) family 3
           H1 H2 H3 H4 H5 H6).
Defined.

Lemma singleton_scope_then_resolve_witness :
  resolve 3 root Logger
          (exec (resolve 4 root Logger)
                (exec (perform root (RegisterSingleton ConsoleLogger)) family)) =
  (Ok (VObject 0 ConsoleLogger []),
   exec (resolve 4 root Logger)
        (exec (perform root (RegisterSingleton ConsoleLogger)) family)).
Proof.
  assert (H1 : md_isComposite (class_metadata ConsoleLogger family) = false) by run.
  assert (H2 : md_isDecorator (class_metadata ConsoleLogger family) = false) by run.
  assert (H3 : md_abstraction (class_metadata ConsoleLogger family) = Some Logger) by run.
  assert (H4 : composites (container root family) !! token Logger = None) by run.
  assert (H5 : default [] (instanceRegistrations (container root family) !! token Logger) = [])
    by run.
  assert (H6 : resolve 4 root Logger
                 (exec (perform root (RegisterSingleton ConsoleLogger)) family) =
               (Ok (VObject 0 ConsoleLogger []),
                exec (resolve 4 root Logger)
                     (exec (perform root (RegisterSingleton ConsoleLogger)) family)))
    by run.
  assert (H7 : 3 ≤ 3) by lia.
  exact (singleton_scope_then_resolve root ConsoleLogger Logger family 4
           (VObject 0 ConsoleLogger [])
           (exec (resolve 4 root Logger)
                 (exec (perform root (RegisterSingleton ConsoleLogger)) family))
           H1 H2 H3 H4 H5 H6 3 H7).
Defined.

Lemma child_container_inherits_witness :
  (createChildContainer root singleton_on_root).1 = Ok (next_container singleton_on_root) ∧
  resolve 5 (next_container singleton_on_root) Logger
          (exec (createChildContainer root) singleton_on_root) =
    resolve 4 root Logger (exec (createChildContainer root) singleton_on_root) ∧
  resolveAll 4 (next_container singleton_on_root) Logger
             (exec (createChildContainer root) singleton_on_root) =
    resolveAll 3 root Logger (exec (createChildContainer root) singleton_on_root) ∧
  (resolve 3 root Logger (exec (createChildContainer root) singleton_on_root)).1 =
    (resolve 3 root Logger singleton_on_root).1 ∧
  (resolveAll 3 root Logger (exec (createChildContainer root) singleton_on_root)).1 =
    (resolveAll 3 root Logger singleton_on_root).1.
Proof.
  assert (Hchain : ancestor_chain singleton_on_root root [root]).
  { apply chain_root. run. }
  assert (Hout : next_container singleton_on_root ∉ [root]).
  { intros H. apply list_elem_of_singleton in H. vm_compute in H. discriminate H. }
  exact (child_container_inherits root singleton_on_root [root] 3 Logger Hchain Hout).
Defined.

Lemma failed_registration_changes_nothing_witness :
  exec (perform root (RegisterProvider Unknown)) family = family ∧
  (∀ a v, RegisterProvider Unknown ≠ RegisterInstance a v) ∧
  (∀ a f, RegisterProvider Unknown ≠ RegisterFactory a f).
Proof.
  assert (H : (perform root (RegisterProvider Unknown) family).1 =
              Throw "No abstraction metadata found for Unknown") by run.
  exact (failed_registration_changes_nothing root (RegisterProvider Unknown) family
           "No abstraction metadata found for Unknown" H).
Defined.

Lemma declared_role_is_permanent_witness :
  md_isDecorator
      (class_metadata LoggerDecorator
         (exec (mapM declare [DeclareImplementation Logger LoggerDecorator []]) family))
    || md_isComposite
         (class_metadata LoggerDecorator
            (exec (mapM declare [DeclareImplementation Logger LoggerDecorator []]) family))
    = true ∧
  ∃ e, register root LoggerDecorator
         (exec (mapM declare [DeclareImplementation Logger LoggerDecorator []]) family) =
       (Throw e, exec (mapM declare [DeclareImplementation Logger LoggerDecorator []]) family).
Proof.
  assert (H : md_isDecorator (class_metadata LoggerDecorator family)
              || md_isComposite (class_metadata LoggerDecorator family) = true) by run.
  exact (declared_role_is_permanent LoggerDecorator family
           [DeclareImplementation Logger LoggerDecorator []] root H).
Defined.

Lemma other_contract_stays_unregistered_witness :
  resolve 2 root ServiceB (exec (perform root (RegisterProvider ServiceImplA)) family) =
  (Throw ("No registration found for " +:+ toString ServiceB),
   exec (perform root (RegisterProvider ServiceImplA)) family).
Proof.
  assert (Hchain : ancestor_chain family root [root]).
  { apply chain_root. run. }
  assert (Hnone : Forall (λ d, no_registration ServiceB (container d family)) [root]).
  { apply Forall_cons_2; [split_and!; run | apply Forall_nil_2]. }
  assert (Hother : ∀ a', contract_of (RegisterProvider ServiceImplA) family = Some a' →
                         token a' ≠ token ServiceB).
  { intros a' H. vm_compute in H. injection H as <-. discriminate. }
  assert (Hfuel : length [root] < 2) by (simpl; lia).
  exact (other_contract_stays_unregistered ServiceB family [root] root root
           (RegisterProvider ServiceImplA) 2 Hchain Hnone Hother Hfuel).
Defined.

Lemma dependency_on_itself_is_circular_witness :
  resolve 4 root Logger self_dependent =
  (Throw ("Circular dependency detected for " +:+ toString Logger), self_dependent).
Proof.
  assert (H1 : composites (container root self_dependent) !! token Logger = None) by run.
  assert (H2 : default [] (instanceRegistrations (container root self_dependent)
                             !! token Logger) = []) by run.
  assert (H3 : last (default [] (registrations (container root self_dependent)
                                   !! token Logger)) =
               Some {| implementation := FileLogger;
                       dependencies := [DepBare (TAbstraction Logger)];
                       scope := Transient |}) by run.
  assert (H4 : resolveDeps (resolveInternal 1 root) {[token Logger := true]} []
                           self_dependent = (Ok [], self_dependent)) by run.
  exact (dependency_on_itself_is_circular Logger self_dependent root
           {| implementation := FileLogger;
              dependencies := [DepBare (TAbstraction Logger)];
              scope := Transient |}
           [] (DepBare (TAbstraction Logger)) [] noOptions 0 [] self_dependent
           H1 H2 H3 (or_introl eq_refl) eq_refl eq_refl eq_refl H4).
Defined.

Lemma optional_dependencies_may_be_absent_witness :
  resolveWithDependencies 3 root ConsoleLogger [optionalFormatter; optionalFormatters]
                          transient_on_root =
  (Ok (VObject (next_object transient_on_root) ConsoleLogger
         (map absent [optionalFormatter; optionalFormatters])),
   allocated transient_on_root).
Proof.
  assert (Hchain : ancestor_chain transient_on_root root [root]).
  { apply chain_root. run. }
  assert (Hnone : Forall (λ c, no_registration Formatter (container c transient_on_root))
                         [root]).
  { apply Forall_cons_2; [split_and!; run | apply Forall_nil_2]. }
  assert (Hall : Forall (λ dep, ∃ a o, splitDependency dep = (TAbstraction a, o) ∧
                                       optional o = true ∧
                                       Forall (λ c, no_registration a
                                                      (container c transient_on_root))
                                              [root])
                        [optionalFormatter; optionalFormatters]).
  { apply Forall_cons_2; [|apply Forall_cons_2; [|apply Forall_nil_2]].
    - exists Formatter, {| multiple := false; optional := true |}.
      split; [reflexivity|]. split; [reflexivity | exact Hnone].
    - exists Formatter, {| multiple := true; optional := true |}.
      split; [reflexivity|]. split; [reflexivity | exact Hnone]. }
  assert (Hfuel : length [root] + 2 ≤ 3) by (simpl; lia).
  exact (optional_dependencies_may_be_absent 3 root ConsoleLogger
           [optionalFormatter; optionalFormatters] transient_on_root [root]
           Hchain Hall Hfuel).
Defined.

Lemma missing_dependency_fails_witness :
  resolveWithDependencies 2 root ConsoleLogger
    ([] ++ DepBare (TAbstraction Formatter) :: [DepBare (TAbstraction Logger)])
    transient_on_root =
  (Throw ("No registration found for " +:+ toString Formatter), transient_on_root).
Proof.
  assert (Hchain : ancestor_chain transient_on_root root [root]).
  { apply chain_root. run. }
  assert (Hnone : Forall (λ c, no_registration Formatter (container c transient_on_root))
                         [root]).
  { apply Forall_cons_2; [split_and!; run | apply Forall_nil_2]. }
  assert (Hfuel : length [root] < 2) by (simpl; lia).
  assert (Hbefore : resolveDeps (resolveInternal 2 root) ∅ [] transient_on_root =
                    (Ok [], transient_on_root)) by run.
  exact (missing_dependency_fails 2 root ConsoleLogger [] (DepBare (TAbstraction Formatter))
           [DepBare (TAbstraction Logger)] Formatter noOptions transient_on_root [root]
           [] transient_on_root Hchain Hnone eq_refl eq_refl eq_refl Hfuel Hbefore).
Defined.

Lemma plain_class_cycle_is_not_detected_witness :
  resolveInternal 100 root (TConstructor Clock) ∅ noOptions plain_cycle =
  (OutOfFuel, plain_cycle).
Proof.
  assert (H : md_dependencies (class_metadata Clock plain_cycle) =
              Some [DepBare (TConstructor Clock)]) by run.
  exact (plain_class_cycle_is_not_detected Clock plain_cycle (DepBare (TConstructor Clock))
           noOptions [] H eq_refl 100 root ∅ noOptions).
Defined.

Lemma registerDecorator_then_resolve_witness :
  ∃ id args inner,
    VObject 1 LoggerDecorator [VObject 0 ConsoleLogger []] =
      VObject id LoggerDecorator (args ++ [inner]) ∧
    length args =
      length (default [] (md_dependencies (class_metadata LoggerDecorator transient_on_root))).
Proof.
  assert (H1 : md_isDecorator (class_metadata LoggerDecorator transient_on_root) = true)
    by run.
  assert (H2 : md_abstraction (class_metadata LoggerDecorator transient_on_root) =
               Some Logger) by run.
  assert (H3 : decorates_anew Logger (container root transient_on_root)).
  { split; [run|]. right. left.
    exists {| implementation := ConsoleLogger; dependencies := []; scope := Transient |}.
    split; run. }
  assert (H4 : resolve 5 root Logger
                 (exec (registerDecorator root LoggerDecorator) transient_on_root) =
               (Ok (VObject 1 LoggerDecorator [VObject 0 ConsoleLogger []]),
                exec (resolve 5 root Logger)
                     (exec (registerDecorator root LoggerDecorator) transient_on_root)))
    by run.
  exact (registerDecorator_then_resolve root LoggerDecorator Logger transient_on_root 5
           (VObject 1 LoggerDecorator [VObject 0 ConsoleLogger []])
           (exec (resolve 5 root Logger)
                 (exec (registerDecorator root LoggerDecorator) transient_on_root))
           H1 H2 H3 H4).
Defined.

Lemma decorator_cycle_is_not_detected_witness :
  (resolve 100 root Logger decorator_cycle).1 = OutOfFuel.
Proof.
  assert (H1 : served_without_stack Logger (container root decorator_cycle)).
  { split; [run|]. left. vm_compute. discriminate. }
  assert (H2 : default [] (decorators (container root decorator_cycle) !! token Logger) =
               {| decoratorClass := EchoDecorator;
                  decoratorDependencies := [DepBare (TAbstraction Logger)] |} :: []) by run.
  assert (H3 : asks_for (DepBare (TAbstraction Logger)) Logger noOptions).
  { split; reflexivity. }
  exact (decorator_cycle_is_not_detected Logger root decorator_cycle
           {| decoratorClass := EchoDecorator;
              decoratorDependencies := [DepBare (TAbstraction Logger)] |}
           [] (DepBare (TAbstraction Logger)) [] noOptions H1 H2 eq_refl H3 100).
Defined.

Lemma late_decorator_misses_singleton_witness :
  resolve 3 root Logger
          (exec (registerDecorator root LoggerDecorator) singleton_on_root_resolved) =
  (Ok (VObject 0 ConsoleLogger []),
   exec (registerDecorator root LoggerDecorator) singleton_on_root_resolved).
Proof.
  assert (H1 : composites (container root singleton_on_root) !! token Logger = None) by run.
  assert (H2 : default [] (instanceRegistrations (container root singleton_on_root)
                             !! token Logger) = []) by run.
  assert (H3 : last (default [] (registrations (container root singleton_on_root)
                                   !! token Logger)) =
               Some (singleton_record ConsoleLogger)) by run.
  assert (H4 : resolve 4 root Logger singleton_on_root =
               (Ok (VObject 0 ConsoleLogger []), singleton_on_root_resolved)) by run.
  assert (H5 : 3 ≤ 3) by lia.
  exact (late_decorator_misses_singleton Logger singleton_on_root root
           (singleton_record ConsoleLogger) 4 (VObject 0 ConsoleLogger [])
           singleton_on_root_resolved root LoggerDecorator H1 H2 H3 eq_refl H4 3 H5).
Defined.
